(** * A shallow embedding of the WSIC toolchain (py-wsic)

    Assembler ([asm/assemble.py], [asm/create_object_program.py]), binary
    object records ([common/object_program.py]), loader ([sim/loader.py])
    and the simulator loop with its opcode table ([common/optable.py],
    [sim/__main__.py]).

    Conventions of the model:
    - Python integers are [Z]; a byte is a [Z] in [0, 255].
    - A ctypes structure is the list of its raw bytes in memory order.
    - The numpy memory image is a [list Z]; slices clamp at the end of the
      array as numpy does, and slice assignment follows numpy broadcasting.
    - Python exceptions are the constructors of [error]; a raised
      [KeyboardInterrupt] (the halt opcode) is a separate outcome. *)

From Stdlib Require Import ZArith Lia Ascii String.
From stdpp Require Import base list gmap strings.

Open Scope Z_scope.

(* ------------------------------------------------------------------ *)
(** ** Errors and the error monad *)

(** The exceptions the code raises, named after the place raising them. *)
Inductive error : Type :=
  | ERange                (** [Int24/UInt24.from_int]: value out of range *)
  | EBufferTooSmall       (** ctypes [from_buffer(_copy)]: buffer too small *)
  | EUnknownRecord        (** [parse_record]: unknown record tag *)
  | EHeaderMissing        (** loader: record before the Header *)
  | EEndMissing           (** loader: no End record *)
  | EProgramTooLarge      (** loader: start + length exceeds memory *)
  | EBroadcast            (** numpy: shapes do not broadcast *)
  | EAttribute            (** Python [AttributeError] *)
  | EUnicodeDecode        (** [bytes.decode()] on invalid UTF-8 *)
  | EUnicodeEncode        (** [str.encode("ascii")] on a non-ASCII char *)
  | EInvalidFormat        (** [parse_instruction]: not 1, 2 or 3 tokens *)
  | EInvalidInstruction   (** [determine_instruction]: unknown mnemonic *)
  | EInvalidLabel         (** label fails [^[A-Z]{1,6}$] *)
  | EMissingOperand       (** a required operand is missing *)
  | EInvalidOperand       (** an operand fails its syntax or range *)
  | EInvalidDirective     (** [parse_and_determine_size]: fallthrough *)
  | EKey                  (** Python [KeyError] on [parsed_ctx] *)
  | ETooFewInstructions   (** [create_object_program]: fewer than 3 *)
  | EStartEnd             (** [create_object_program]: not START ... END *)
  | EUndefinedSymbol      (** [create_object_program]: symbol not in symtab *)
  | EGroupInvalid         (** [group_instructions_for_text_record] *)
  | ENoInput              (** [rd_effect]: stdin exhausted *)
  | ENameTooLong          (** ctypes: bytes too long for [c_char * 6] *)
  | KeyboardInterrupt.    (** raised by [halt_effect], caught by the run loop *)

Inductive result (A : Type) : Type :=
  | Ok (a : A)
  | Err (e : error).
Arguments Ok {A} a.
Arguments Err {A} e.

Definition bind {A B} (r : result A) (k : A -> result B) : result B :=
  match r with Ok a => k a | Err e => Err e end.

Notation "'let*' x ':=' r 'in' k" := (bind r (fun x => k))
  (at level 200, x name, r at level 100, k at level 200).
Notation "'let*' ' p ':=' r 'in' k" := (bind r (fun x => match x with p => k end))
  (at level 200, p pattern, r at level 100, k at level 200).

Definition is_ok {A} (r : result A) : bool :=
  match r with Ok _ => true | Err _ => false end.

(* ------------------------------------------------------------------ *)
(** ** [Int24] and [UInt24] ([common/object_program.py]) *)

(** A ctypes integer field of [w] bits stores its value modulo [2^w]
    (ctypes does not check overflow). *)
Definition c_uint (w : Z) (v : Z) : Z := v mod 2 ^ w.

(** [from_int]: fields [byte1, byte2, byte3] in memory order, holding
    [(v >> 16) & 0xFF], [(v >> 8) & 0xFF] and [v & 0xFF]. *)
Definition int24_bytes (v : Z) : list Z :=
  [Z.land (Z.shiftr v 16) 255; Z.land (Z.shiftr v 8) 255; Z.land v 255].

Definition UInt24_from_int (v : Z) : result (list Z) :=
  if (0 <=? v) && (v <=? 16777215) then Ok (int24_bytes v) else Err ERange.

Definition Int24_from_int (v : Z) : result (list Z) :=
  if (-8388608 <=? v) && (v <=? 8388607) then Ok (int24_bytes v) else Err ERange.

(** [UInt24.to_int]: [(byte1 << 16) | (byte2 << 8) | byte3]. *)
Definition UInt24_to_int (b : list Z) : Z :=
  match b with
  | [b1; b2; b3] => Z.lor (Z.lor (Z.shiftl b1 16) (Z.shiftl b2 8)) b3
  | _ => 0
  end.

(** [Int24.to_int]: the same, minus [0x1000000] when [>= 0x800000]. *)
Definition Int24_to_int (b : list Z) : Z :=
  let v := UInt24_to_int b in
  if 8388608 <=? v then v - 16777216 else v.

(** ctypes [S.from_buffer_copy(buf)] / [S.from_buffer(buf)] for a
    structure of [n] bytes: the first [n] bytes, or [ValueError]. *)
Definition from_buffer (n : nat) (buf : list Z) : result (list Z) :=
  if (n <=? length buf)%nat then Ok (take n buf) else Err EBufferTooSmall.

(* ------------------------------------------------------------------ *)
(** ** The numpy memory image *)

(** [memory[a:b]] for [0 <= a]: numpy clamps the bounds at the array end. *)
Definition mem_slice (m : list Z) (a b : Z) : list Z :=
  take (Z.to_nat b - Z.to_nat a) (drop (Z.to_nat a) m).

(** [memory[a:b] = vals]: equal lengths copy element-wise, a one-element
    value broadcasts, anything else raises [ValueError]. *)
Definition mem_assign (m : list Z) (a b : Z) (vals : list Z) : result (list Z) :=
  let n := length (mem_slice m a b) in
  let vals' :=
    if (length vals =? n)%nat then Some vals
    else match vals with [v] => Some (replicate n v) | _ => None end in
  match vals' with
  | Some vs => Ok (take (Z.to_nat a) m ++ vs ++ drop (Z.to_nat a + n) m)
  | None => Err EBroadcast
  end.

(* ------------------------------------------------------------------ *)
(** ** UTF-8 validation, as done by [bytes.decode()] *)

Definition cont (lo hi b : Z) : bool := (lo <=? b) && (b <=? hi).

Fixpoint utf8_valid (fuel : nat) (bs : list Z) : bool :=
  match fuel with
  | O => true
  | S fuel' =>
    match bs with
    | [] => true
    | b :: r =>
      if b <? 128 then utf8_valid fuel' r
      else if (194 <=? b) && (b <=? 223) then
        match r with c :: r' => cont 128 191 c && utf8_valid fuel' r' | _ => false end
      else if (224 <=? b) && (b <=? 239) then
        let lo := if b =? 224 then 160 else 128 in
        let hi := if b =? 237 then 159 else 191 in
        match r with
        | c1 :: c2 :: r' => cont lo hi c1 && cont 128 191 c2 && utf8_valid fuel' r'
        | _ => false end
      else if (240 <=? b) && (b <=? 244) then
        let lo := if b =? 240 then 144 else 128 in
        let hi := if b =? 244 then 143 else 191 in
        match r with
        | c1 :: c2 :: c3 :: r' =>
            cont lo hi c1 && cont 128 191 c2 && cont 128 191 c3 && utf8_valid fuel' r'
        | _ => false end
      else false
    end
  end.

Definition decode_utf8 (bs : list Z) : result (list Z) :=
  if utf8_valid (length bs) bs then Ok bs else Err EUnicodeDecode.

(* ------------------------------------------------------------------ *)
(** ** The opcode table ([common/optable.py]) *)

(** Members of [OpcodeTable], in declaration order; [new_code()] numbers
    them 0, 1, 2, ... in that order. *)
Inductive OpcodeTable : Type :=
  | LDA | LDCH | LDX | LDL | LDS
  | STA | STCH | STX | STL | STS
  | COMP | TIX | ADD | SUB
  | J | JEQ | JLT | JGT | JSUB | RSUB
  | RD | WD | HLT | NOP.

#[global] Instance OpcodeTable_eq_dec : EqDecision OpcodeTable.
Proof. solve_decision. Defined.

Definition all_opcodes : list OpcodeTable :=
  [LDA; LDCH; LDX; LDL; LDS; STA; STCH; STX; STL; STS; COMP; TIX; ADD; SUB;
   J; JEQ; JLT; JGT; JSUB; RSUB; RD; WD; HLT; NOP].

Definition opcode (o : OpcodeTable) : Z :=
  match o with
  | LDA => 0 | LDCH => 1 | LDX => 2 | LDL => 3 | LDS => 4
  | STA => 5 | STCH => 6 | STX => 7 | STL => 8 | STS => 9
  | COMP => 10 | TIX => 11 | ADD => 12 | SUB => 13
  | J => 14 | JEQ => 15 | JLT => 16 | JGT => 17 | JSUB => 18 | RSUB => 19
  | RD => 20 | WD => 21 | HLT => 22 | NOP => 23
  end.

Definition menemonic (o : OpcodeTable) : string :=
  match o with
  | LDA => "LDA" | LDCH => "LDCH" | LDX => "LDX" | LDL => "LDL" | LDS => "LDS"
  | STA => "STA" | STCH => "STCH" | STX => "STX" | STL => "STL" | STS => "STS"
  | COMP => "COMP" | TIX => "TIX" | ADD => "ADD" | SUB => "SUB"
  | J => "J" | JEQ => "JEQ" | JLT => "JLT" | JGT => "JGT" | JSUB => "JSUB"
  | RSUB => "RSUB" | RD => "RD" | WD => "WD" | HLT => "HLT" | NOP => "NOP"
  end.

(** [has_operand] defaults to [True]; RSUB, RD, WD, HLT, NOP pass [False]. *)
Definition has_operand (o : OpcodeTable) : bool :=
  match o with RSUB | RD | WD | HLT | NOP => false | _ => true end.

(** [code_lut.get(opcode)]. *)
Definition code_lut (c : Z) : option OpcodeTable :=
  find (fun o => opcode o =? c) all_opcodes.

(* ------------------------------------------------------------------ *)
(** ** [SICFormatObjectCode]: [opcode: c_uint8], [_ia: c_uint16], little endian *)

Record SICFormatObjectCode := { sic_opcode : Z; sic_ia : Z }.

(** [create]: [ia = address | (0x8000 if indexed else 0)], stored in the
    16-bit field without a range check. *)
Definition SIC_create (op : OpcodeTable) (address : Z) (indexed : bool)
  : SICFormatObjectCode :=
  let ia := Z.lor address (if indexed then 32768 else 0) in
  {| sic_opcode := c_uint 8 (opcode op); sic_ia := c_uint 16 ia |}.

Definition SIC_indexed (s : SICFormatObjectCode) : bool :=
  negb (Z.land (sic_ia s) 32768 =? 0).

Definition SIC_address (s : SICFormatObjectCode) : Z := Z.land (sic_ia s) 32767.

(** [bytes(code)]: the opcode byte, then [_ia] little endian. *)
Definition SIC_bytes (s : SICFormatObjectCode) : list Z :=
  [sic_opcode s; Z.land (sic_ia s) 255; Z.shiftr (sic_ia s) 8].

(** [SICFormatObjectCode.from_buffer(buf)] on at least 3 bytes. *)
Definition SIC_from_bytes (b : list Z) : result SICFormatObjectCode :=
  let* bs := from_buffer 3 b in
  match bs with
  | [o; lo; hi] => Ok {| sic_opcode := o; sic_ia := lo + 256 * hi |}
  | _ => Err EBufferTooSmall
  end.

(* ------------------------------------------------------------------ *)
(** ** Object records and [parse_record] ([sim/loader.py]) *)

(** A decoded record; integer fields are kept as their raw 3 bytes, read
    with [UInt24_to_int] where the loader calls [.to_int()]. *)
Inductive ObjRecord : Type :=
  | HeaderRecord (program_name : list Z) (starting_address program_length : list Z)
  | TextRecord (starting_address : list Z) (length : Z)
  | EndRecord (exec_address : list Z)
  | ModificationRecord (address : list Z) (length : Z).

(** [ctypes.sizeof] of each record structure ([_pack_ = 1]). *)
Definition header_size : nat := 13.
Definition text_size : nat := 5.
Definition end_size : nat := 4.
Definition mod_size : nat := 5.

Definition sub (l : list Z) (i n : nat) : list Z := take n (drop i l).

(** [parse_record]: match the tag byte, then [from_buffer_copy] the
    fixed-size record; unknown tags raise [ValueError]. *)
Definition parse_record (buffer : list Z) : result (ObjRecord * list Z) :=
  match take 1 buffer with
  | [0] =>
      let* d := from_buffer header_size buffer in
      Ok (HeaderRecord (sub d 1 6) (sub d 7 3) (sub d 10 3), drop header_size buffer)
  | [1] =>
      let* d := from_buffer text_size buffer in
      Ok (TextRecord (sub d 1 3) (nth 4 d 0), drop text_size buffer)
  | [2] =>
      let* d := from_buffer end_size buffer in
      Ok (EndRecord (sub d 1 3), drop end_size buffer)
  | [3] =>
      let* d := from_buffer mod_size buffer in
      Ok (ModificationRecord (sub d 1 3) (nth 4 d 0), drop mod_size buffer)
  | _ => Err EUnknownRecord
  end.

(** Reading a [c_char * 6] field yields the bytes before the first NUL. *)
Fixpoint c_char_array_value (b : list Z) : list Z :=
  match b with
  | [] => []
  | x :: r => if x =? 0 then [] else x :: c_char_array_value r
  end.

(* ------------------------------------------------------------------ *)
(** ** [load_program] ([sim/loader.py]) *)

(** The local variables of [load_program] and the memory it writes. *)
Record LoaderState := {
  ld_mem : list Z;
  ld_header : bool;          (** [header_record is not None] *)
  ld_end : bool;             (** [end_record is not None] *)
  ld_exec : Z;               (** [exec_address] *)
  ld_terminal : Z            (** [terminal_address] *)
}.

Definition set_mem (st : LoaderState) (m : list Z) : LoaderState :=
  {| ld_mem := m; ld_header := ld_header st; ld_end := ld_end st;
     ld_exec := ld_exec st; ld_terminal := ld_terminal st |}.

(** [UInt24(cur_addr)]: the positional argument initialises the first field
    [byte1] (a [c_uint8]); the other fields are zero. *)
Definition UInt24_positional (v : Z) : list Z := [c_uint 8 v; 0; 0].

(** [x.to_bytes()] on a [UInt24]: neither [UInt24] nor
    [ctypes.LittleEndianStructure] defines [to_bytes], so the attribute
    lookup raises [AttributeError]. *)
Definition UInt24_to_bytes_method (u : list Z) : result (list Z) := Err EAttribute.

(** One iteration of the [match record] of [load_program], at base
    [start_location]; returns the new state and the remaining data. *)
Definition load_record (start_location : Z) (st : LoaderState) (r : ObjRecord)
    (data : list Z) : result (LoaderState * list Z) :=
  let memory := ld_mem st in
  match r with
  | HeaderRecord name sa pl =>
      let* _ := decode_utf8 (c_char_array_value name) in
      let starting_address := UInt24_to_int sa in
      let program_length := UInt24_to_int pl in
      if Z.of_nat (length memory) <? starting_address + program_length
      then Err EProgramTooLarge
      else Ok ({| ld_mem := memory; ld_header := true; ld_end := ld_end st;
                  ld_exec := ld_exec st;
                  ld_terminal := start_location + starting_address + program_length |},
               data)
  | TextRecord sa len =>
      if negb (ld_header st) then Err EHeaderMissing else
      let starting_address := UInt24_to_int sa in
      let* m := mem_assign memory (start_location + starting_address)
                  (start_location + starting_address + len)
                  (take (Z.to_nat len) data) in
      Ok (set_mem st m, drop (Z.to_nat len) data)
  | EndRecord ea =>
      if negb (ld_header st) then Err EHeaderMissing else
      Ok ({| ld_mem := memory; ld_header := true; ld_end := true;
             ld_exec := UInt24_to_int ea; ld_terminal := ld_terminal st |}, data)
  | ModificationRecord a len =>
      if negb (ld_header st) then Err EHeaderMissing else
      let address := UInt24_to_int a in
      let lo := start_location + address in
      let hi := start_location + address + len in
      let* cur := from_buffer 3 (mem_slice memory lo hi) in
      let cur_addr := UInt24_to_int cur + start_location in
      let* bs := UInt24_to_bytes_method (UInt24_positional cur_addr) in
      let* m := mem_assign memory lo hi bs in
      Ok (set_mem st m, data)
  end.

(** The [while data:] loop.  Each iteration consumes at least one record
    header (4 bytes or more), so [length data] iterations bound it; the
    loop also leaves as soon as an End record has been seen. *)
Fixpoint load_loop (fuel : nat) (start_location : Z) (st : LoaderState)
    (data : list Z) : result LoaderState :=
  match fuel with
  | O => Ok st
  | S fuel' =>
      match data with
      | [] => Ok st
      | _ :: _ =>
          let* '(r, data1) := parse_record data in
          let* '(st', data2) := load_record start_location st r data1 in
          if ld_end st' then Ok st' else load_loop fuel' start_location st' data2
      end
  end.

Definition initial_loader_state (memory : list Z) : LoaderState :=
  {| ld_mem := memory; ld_header := false; ld_end := false;
     ld_exec := 0; ld_terminal := 0 |}.

(** [load_program(memory, program, start_location)] on the file contents
    [data]: returns [(exec_address, terminal_address)] and the memory. *)
Definition load_program (memory : list Z) (data : list Z) (start_location : Z)
  : result (Z * Z * list Z) :=
  let* st := load_loop (length data) start_location (initial_loader_state memory) data in
  if negb (ld_end st) then Err EEndMissing
  else Ok (ld_exec st, ld_terminal st, ld_mem st).

(** The memory of the simulator: [np.memmap(shape=(0x7FFF,))], zeroed. *)
Definition sim_memory : list Z := replicate (Z.to_nat 32767) 0.

(** Serialised records, as [bytes(record)] writes them. *)
Definition header_bytes (name : list Z) (start len : Z) : list Z :=
  [0] ++ name ++ replicate (6 - length name) 0 ++ int24_bytes start ++ int24_bytes len.
Definition text_bytes (start len : Z) : list Z := [1] ++ int24_bytes start ++ [len].
Definition end_bytes (exec : Z) : list Z := [2] ++ int24_bytes exec.
Definition mod_bytes (addr len : Z) : list Z := [3] ++ int24_bytes addr ++ [len].

(** The object program of [test.py] (it prints ['*\n']). *)
Definition test_program : list Z :=
  header_bytes [84; 69; 83; 84; 48; 49] 4096 17
  ++ text_bytes 4096 17
  ++ SIC_bytes (SIC_create LDCH 4111 false)
  ++ SIC_bytes (SIC_create WD 0 false)
  ++ SIC_bytes (SIC_create LDCH 4112 false)
  ++ SIC_bytes (SIC_create WD 0 false)
  ++ SIC_bytes (SIC_create RSUB 0 false)
  ++ [42; 10]
  ++ mod_bytes 4097 2
  ++ mod_bytes 4103 2
  ++ end_bytes 4096.



(** A program of one NOP at address 0, length 3, execution address 0. *)
Definition nop_program : list Z :=
  header_bytes [80] 0 3 ++ text_bytes 0 3 ++ SIC_bytes (SIC_create NOP 0 false)
  ++ end_bytes 0.

(** The execution and terminal addresses of a load, when it succeeds. *)
Definition load_exec (r : result (Z * Z * list Z)) : option Z :=
  match r with Ok (e, _, _) => Some e | Err _ => None end.
Definition load_terminal (r : result (Z * Z * list Z)) : option Z :=
  match r with Ok (_, t, _) => Some t | Err _ => None end.

(* ------------------------------------------------------------------ *)
(** ** Registers ([common/reg.py]) and effects ([common/optable.py]) *)

Inductive Registers : Type := REG_A | REG_X | REG_L | REG_PC | REG_SW | REG_S.

Definition reg_eqb (r1 r2 : Registers) : bool :=
  match r1, r2 with
  | REG_A, REG_A | REG_X, REG_X | REG_L, REG_L | REG_PC, REG_PC
  | REG_SW, REG_SW | REG_S, REG_S => true
  | _, _ => false
  end.

(** The simulator state: the register dict (each value a [UInt24], as its
    3 raw bytes), the memory image, and the console. Characters of stdin
    are code points; stdout collects the bytes [wd_effect] prints. *)
Record Machine := {
  registers : Registers -> list Z;
  memory : list Z;
  stdin : list Z;
  stdout : list Z
}.

Definition reg (s : Machine) (r : Registers) : list Z := registers s r.

(** [option.registers[r] = v]. *)
Definition set_reg (s : Machine) (r : Registers) (v : list Z) : Machine :=
  {| registers := fun r' => if reg_eqb r r' then v else registers s r';
     memory := memory s; stdin := stdin s; stdout := stdout s |}.

Definition set_memory (s : Machine) (m : list Z) : Machine :=
  {| registers := registers s; memory := m; stdin := stdin s; stdout := stdout s |}.

Definition Effect := Machine -> Z -> result Machine.

(** [get_word]: [UInt24.from_buffer_copy(memory[address:address+3])]. *)
Definition get_word (m : list Z) (address : Z) : result (list Z) :=
  from_buffer 3 (mem_slice m address (address + 3)).

Definition make_load_effect (target : Registers) (lowest_only : bool) : Effect :=
  fun s d =>
    if lowest_only then
      let* w := from_buffer 3 ([0; 0] ++ mem_slice (memory s) d (d + 1)) in
      Ok (set_reg s target w)
    else
      let* w := from_buffer 3 (mem_slice (memory s) d (d + 3)) in
      Ok (set_reg s target w).

(** [memory[d:d+1] = list(bytes(reg))] assigns three values to a slice of
    at most one element, which numpy refuses. *)
Definition make_store_effect (target : Registers) (lowest_only : bool) : Effect :=
  fun s d =>
    if lowest_only then
      let* m := mem_assign (memory s) d (d + 1) (reg s target) in
      Ok (set_memory s m)
    else
      let* m := mem_assign (memory s) d (d + 3) (reg s target) in
      Ok (set_memory s m).

Definition compare_effect_reg (r : Registers) : Effect :=
  fun s d =>
    let rv := reg s r in
    let* v := get_word (memory s) d in
    let* sw :=
      if UInt24_to_int rv =? UInt24_to_int v then UInt24_from_int 0
      else if UInt24_to_int rv <? UInt24_to_int v then UInt24_from_int 1
      else UInt24_from_int 2 in
    Ok (set_reg s REG_SW sw).

Definition compare_effect : Effect := compare_effect_reg REG_A.

Definition tix_effect : Effect :=
  fun s d =>
    let* x := UInt24_from_int (UInt24_to_int (reg s REG_X) + 1) in
    compare_effect_reg REG_X (set_reg s REG_X x) d.

(** [a] is read with [UInt24.to_int] (unsigned), [v] through [Int24]
    (signed); the result goes through [Int24.from_int]. *)
Definition make_arithmetic_effect (fn : Z -> Z -> Z) : Effect :=
  fun s d =>
    let a := UInt24_to_int (reg s REG_A) in
    let* w := get_word (memory s) d in
    let* wi := from_buffer 3 w in
    let v := Int24_to_int wi in
    let result := fn a v in
    let* r := Int24_from_int result in
    let* ru := from_buffer 3 r in
    Ok (set_reg s REG_A ru).

Definition make_jump_effect (cond : Machine -> bool) : Effect :=
  fun s d =>
    if negb (cond s) then Ok s
    else let* pc := UInt24_from_int d in Ok (set_reg s REG_PC pc).

Definition jsub_effect : Effect :=
  fun s d =>
    let s1 := set_reg s REG_L (reg s REG_PC) in
    let* pc := UInt24_from_int d in
    Ok (set_reg s1 REG_PC pc).

Definition rsub_effect : Effect := fun s d => Ok (set_reg s REG_PC (reg s REG_L)).

(** [str.encode()] (UTF-8) of one code point below 0x800. *)
Definition utf8_encode (c : Z) : list Z :=
  if c <? 128 then [c]
  else [Z.lor 192 (Z.shiftr c 6); Z.lor 128 (Z.land c 63)].

Definition rd_effect : Effect :=
  fun s d =>
    match stdin s with
    | [] => Err ENoInput
    | c :: rest =>
        let* w := from_buffer 3 ([0; 0] ++ utf8_encode c) in
        let s1 := set_reg s REG_A w in
        Ok {| registers := registers s1; memory := memory s1; stdin := rest;
              stdout := stdout s1 |}
    end.

Definition wd_effect : Effect :=
  fun s d =>
    let* v := decode_utf8 (reg s REG_A) in
    Ok {| registers := registers s; memory := memory s; stdin := stdin s;
          stdout := stdout s ++ v |}.

Definition halt_effect : Effect := fun s d => Err KeyboardInterrupt.

Definition sw_is (n : Z) (s : Machine) : bool := UInt24_to_int (reg s REG_SW) =? n.

(** The [effect] column of [OpcodeTable]. *)
Definition effect (o : OpcodeTable) : Effect :=
  match o with
  | LDA => make_load_effect REG_A false
  | LDCH => make_load_effect REG_A true
  | LDX => make_load_effect REG_X false
  | LDL => make_load_effect REG_L false
  | LDS => make_load_effect REG_S false
  | STA => make_store_effect REG_A false
  | STCH => make_store_effect REG_A true
  | STX => make_store_effect REG_X false
  | STL => make_store_effect REG_L false
  | STS => make_store_effect REG_S false
  | COMP => compare_effect
  | TIX => tix_effect
  | ADD => make_arithmetic_effect Z.add
  | SUB => make_arithmetic_effect Z.sub
  | J => make_jump_effect (fun _ => true)
  | JEQ => make_jump_effect (sw_is 0)
  | JLT => make_jump_effect (sw_is 1)
  | JGT => make_jump_effect (sw_is 2)
  | JSUB => jsub_effect
  | RSUB => rsub_effect
  | RD => rd_effect
  | WD => wd_effect
  | HLT => halt_effect
  | NOP => fun s _ => Ok s
  end.

(* ------------------------------------------------------------------ *)
(** ** The run loop of [sim/__main__.py] *)

Inductive StopReason : Type :=
  | Halted                       (** [KeyboardInterrupt] caught *)
  | UnknownOpcode (code : Z)     (** [code_lut.get(opcode) is None]: [break] *)
  | Crashed (e : error).         (** any other exception leaves the loop *)

Inductive StepOut : Type :=
  | Next (s : Machine)
  | Stop (why : StopReason).

(** Fetch and decode at the program counter. *)
Definition fetch (s : Machine) : result SICFormatObjectCode :=
  let pc := UInt24_to_int (reg s REG_PC) in
  SIC_from_bytes (mem_slice (memory s) pc (pc + 3)).

Definition fetch_op (s : Machine) : option OpcodeTable :=
  match fetch s with Ok c => code_lut (sic_opcode c) | Err _ => None end.

(** One iteration of [while True:]: fetch, decode, look up, advance the
    program counter by 3, run the effect. *)
Definition step (s : Machine) : StepOut :=
  match fetch s with
  | Err e => Stop (Crashed e)
  | Ok code =>
      let address := SIC_address code in
      let indexed := SIC_indexed code in
      let decoded_address :=
        address + (if indexed then UInt24_to_int (reg s REG_X) else 0) in
      match code_lut (sic_opcode code) with
      | None => Stop (UnknownOpcode (sic_opcode code))
      | Some op =>
          match UInt24_from_int (UInt24_to_int (reg s REG_PC) + 3) with
          | Err e => Stop (Crashed e)
          | Ok pc' =>
              match effect op (set_reg s REG_PC pc') decoded_address with
              | Ok s' => Next s'
              | Err KeyboardInterrupt => Stop Halted
              | Err e => Stop (Crashed e)
              end
          end
      end
  end.

(** [fuel] iterations of the loop: the program counters executed, and
    why the loop stopped, if it did. *)
Fixpoint run (fuel : nat) (s : Machine) : list Z * option StopReason * Machine :=
  match fuel with
  | O => ([], None, s)
  | S fuel' =>
      let pc := UInt24_to_int (reg s REG_PC) in
      match step s with
      | Stop why => ([pc], Some why, s)
      | Next s' =>
          let '(tr, why, s'') := run fuel' s' in (pc :: tr, why, s'')
      end
  end.

Definition run_trace (fuel : nat) (s : Machine) : list Z * option StopReason :=
  let '(tr, why, _) := run fuel s in (tr, why).

(** Registers all zero except the program counter. *)
Definition start_machine (m : list Z) (pc : Z) (input : list Z) : Machine :=
  {| registers := fun r => match r with REG_PC => int24_bytes pc | _ => [0; 0; 0] end;
     memory := m; stdin := input; stdout := [] |}.

(** The machine after a successful load, started at the execution address. *)
Definition machine_after_load (r : result (Z * Z * list Z)) : Machine :=
  match r with
  | Ok (e, _, m) => start_machine m e []
  | Err _ => start_machine [] 0 []
  end.

(** Opcodes whose effect writes the program counter. *)
Definition redirects (o : OpcodeTable) : bool :=
  match o with J | JEQ | JLT | JGT | JSUB | RSUB => true | _ => false end.

(** A small machine: NOP at 0, HLT at 3, started at address 0. *)
Definition demo_machine : Machine := start_machine [23; 0; 0; 22; 0; 0] 0 [].

(** A machine with accumulator bytes [a] and the word [w] at address 0 of
    the simulator memory. *)
Definition acc_machine (a w : list Z) : Machine :=
  set_reg (start_machine (w ++ drop 3 sim_memory) 0 []) REG_A a.

(** Signed 24-bit arithmetic as the spec words it: both operands read as
    two's complement, the result encoded in 24-bit two's complement. *)
Definition spec_signed_arith (fn : Z -> Z -> Z) (a v : list Z) : list Z :=
  int24_bytes ((fn (Int24_to_int a) (Int24_to_int v)) mod 2 ^ 24).

(** The decoded [(indexed, address)] of the word [SIC_create _ a idx]
    equals [(idx, a)]. *)
Definition sic_ia_roundtrips (a : Z) (idx : bool) : bool :=
  let c := {| sic_opcode := 0; sic_ia := c_uint 16 (Z.lor a (if idx then 32768 else 0)) |} in
  Bool.eqb (SIC_indexed c) idx && (SIC_address c =? a).

(** [f j] holds for the [n] integers [j] from [k] on. *)
Fixpoint all_from (n : nat) (k : Z) (f : Z -> bool) : bool :=
  match n with
  | O => true
  | S n' => f k && all_from n' (k + 1) f
  end.

(* ------------------------------------------------------------------ *)
(** ** Python string operations used by the assembler

    A Python [str] is a [string]; each [ascii] character stands for the
    code point [0 .. 255] (Latin-1), the range the predicates below cover. *)

Definition code (c : ascii) : Z := Z.of_nat (nat_of_ascii c).

(** [str.isspace()] on one character. *)
Definition is_space (c : ascii) : bool :=
  let n := code c in
  ((9 <=? n) && (n <=? 13)) || ((28 <=? n) && (n <=? 32)) || (n =? 133) || (n =? 160).

Definition chars (s : string) : list ascii := list_ascii_of_string s.
Definition str (l : list ascii) : string := string_of_list_ascii l.

Fixpoint lstrip_l (l : list ascii) : list ascii :=
  match l with
  | [] => []
  | c :: r => if is_space c then lstrip_l r else l
  end.

Definition rstrip_l (l : list ascii) : list ascii := rev (lstrip_l (rev l)).
Definition strip_l (l : list ascii) : list ascii := rstrip_l (lstrip_l l).

Definition ascii_eqb (a b : ascii) : bool := Ascii.eqb a b.

Fixpoint startswith_l (l p : list ascii) : bool :=
  match p, l with
  | [], _ => true
  | c :: p', d :: l' => ascii_eqb c d && startswith_l l' p'
  | _ :: _, [] => false
  end.

Definition startswith (s p : string) : bool := startswith_l (chars s) (chars p).
Definition endswith (s p : string) : bool :=
  startswith_l (rev (chars s)) (rev (chars p)).

(** [line.partition("#")[0]]. *)
Fixpoint before_hash (l : list ascii) : list ascii :=
  match l with
  | [] => []
  | c :: r => if ascii_eqb c "#"%char then [] else c :: before_hash r
  end.

(** The word at the front of [l], up to the first whitespace. *)
Fixpoint take_word (l : list ascii) : list ascii * list ascii :=
  match l with
  | [] => ([], [])
  | c :: r =>
      if is_space c then ([], l)
      else let '(w, rest) := take_word r in (c :: w, rest)
  end.

(** [str.split(maxsplit=n)] (CPython's [split_whitespace]): up to [n]
    words, then the remainder with its leading whitespace removed. *)
Fixpoint split_max (n : nat) (l : list ascii) : list (list ascii) :=
  match lstrip_l l with
  | [] => []
  | l' =>
      match n with
      | O => [l']
      | S n' => let '(w, rest) := take_word l' in w :: split_max n' rest
      end
  end.

(** [str.splitlines()]: line boundaries among code points [0 .. 255]. *)
Definition is_line_break (c : ascii) : bool :=
  let n := code c in
  ((10 <=? n) && (n <=? 13)) || ((28 <=? n) && (n <=? 30)) || (n =? 133).

Fixpoint splitlines_l (l cur : list ascii) : list (list ascii) :=
  match l with
  | [] => match cur with [] => [] | _ => [rev cur] end
  | c :: r =>
      if is_line_break c then
        if code c =? 13 then
          match r with
          | c2 :: r2 => if code c2 =? 10 then rev cur :: splitlines_l r2 []
                        else rev cur :: splitlines_l r []
          | [] => [rev cur]
          end
        else rev cur :: splitlines_l r []
      else splitlines_l r (c :: cur)
  end.

Definition splitlines (s : string) : list string := map str (splitlines_l (chars s) []).

Definition is_upper (c : ascii) : bool := (65 <=? code c) && (code c <=? 90).
Definition is_hex_digit (c : ascii) : bool :=
  let n := code c in
  ((48 <=? n) && (n <=? 57)) || ((65 <=? n) && (n <=? 70)) || ((97 <=? n) && (n <=? 102)).
Definition digit_value (c : ascii) : Z :=
  let n := code c in
  if n <=? 57 then n - 48 else if n <=? 70 then n - 55 else n - 87.

(** [re.match(pattern, s)] for a pattern [^...$]: without MULTILINE, [$]
    also matches just before a final newline. *)
Definition re_match_anchored (p : list ascii -> bool) (s : string) : bool :=
  let l := chars s in
  p l || (match rev l with c :: r => (code c =? 10) && p (rev r) | [] => false end).

(** [[A-Z]{1,6}]. *)
Definition label_body (l : list ascii) : bool :=
  (1 <=? length l)%nat && (length l <=? 6)%nat && forallb is_upper l.

(** [^[A-Z]{1,6}$]. *)
Definition re_label (s : string) : bool := re_match_anchored label_body s.

(** [re.match(r"^([A-Z]{1,6})(,X)?$", s)]: the symbol and whether [,X]
    was present. *)
Definition operand_groups (l : list ascii) : option (list ascii * bool) :=
  if label_body l then Some (l, false)
  else match rev l with
       | x :: comma :: r =>
           if ascii_eqb x "X"%char && ascii_eqb comma ","%char && label_body (rev r)
           then Some (rev r, true) else None
       | _ => None
       end.

Definition re_operand (s : string) : option (string * bool) :=
  let l := chars s in
  match operand_groups l with
  | Some (g, x) => Some (str g, x)
  | None =>
      match rev l with
      | c :: r => if code c =? 10 then
                    match operand_groups (rev r) with
                    | Some (g, x) => Some (str g, x) | None => None end
                  else None
      | [] => None
      end
  end.

(** [^[0-9A-Fa-f]{4}$]. *)
Definition re_hex4 (s : string) : bool :=
  re_match_anchored (fun l => (length l =? 4)%nat && forallb is_hex_digit l) s.

(** Digits with single underscores between them, in [base] (10 or 16);
    [prev_digit] tells whether the character before was a digit. *)
Fixpoint digits_value (base : Z) (acc : Z) (prev_digit : bool) (l : list ascii)
  : option Z :=
  match l with
  | [] => if prev_digit then Some acc else None
  | c :: r =>
      if ascii_eqb c "_"%char then
        if prev_digit then digits_value base acc false r else None
      else
        let ok := if base =? 16 then is_hex_digit c
                  else (48 <=? code c) && (code c <=? 57) in
        if ok then digits_value base (acc * base + digit_value c) true r else None
  end.

(** [int(s, base)] for base 10 or 16: surrounding whitespace, a sign,
    for base 16 an optional [0x] prefix that may be followed by one
    underscore. *)
Definition py_int (base : Z) (s : string) : option Z :=
  let l := strip_l (chars s) in
  let '(neg, l1) :=
    match l with
    | c :: r => if ascii_eqb c "-"%char then (true, r)
                else if ascii_eqb c "+"%char then (false, r) else (false, l)
    | [] => (false, l)
    end in
  let v :=
    match l1 with
    | c0 :: c1 :: r =>
        if (base =? 16) && ascii_eqb c0 "0"%char
           && (ascii_eqb c1 "x"%char || ascii_eqb c1 "X"%char)
        then match r with
             | u :: r' => if ascii_eqb u "_"%char then digits_value base 0 false r'
                          else digits_value base 0 false r
             | [] => None
             end
        else digits_value base 0 false l1
    | _ => digits_value base 0 false l1
    end in
  match v with Some n => Some (if neg then - n else n) | None => None end.

(** [str.isdigit()]: non-empty, every character a digit (the Latin-1
    superscripts 1, 2, 3 count as digits). *)
Definition py_isdigit (s : string) : bool :=
  let l := chars s in
  negb (length l =? 0)%nat &&
  forallb (fun c => ((48 <=? code c) && (code c <=? 57)) || (code c =? 178)
                    || (code c =? 179) || (code c =? 185)) l.

(** [str.encode("ascii")]. *)
Definition encode_ascii (s : string) : result (list Z) :=
  let l := map code (chars s) in
  if forallb (fun n => n <? 128) l then Ok l else Err EUnicodeEncode.

(* ------------------------------------------------------------------ *)
(** ** The assembler ([asm/assemble.py], [asm/create_object_program.py]) *)

(** [tokenize]: one line; [None] when the line is skipped. *)
Definition tokenize_line (line : string) : option (list string) :=
  let l := chars line in
  match l with
  | [] => None
  | _ =>
      if startswith_l (rstrip_l l) ["#"%char] then None
      else
        let tokens := split_max 2 (before_hash l) in
        Some (map str (List.filter (fun t => negb (length (strip_l t) =? 0)%nat)
                               (map strip_l tokens)))
  end.

(** [tokenize(lines)]: lines numbered from 1. *)
Fixpoint tokenize_from (n : Z) (lines : list string) : list (Z * list string) :=
  match lines with
  | [] => []
  | line :: rest =>
      match tokenize_line line with
      | Some tokens => (n, tokens) :: tokenize_from (n + 1) rest
      | None => tokenize_from (n + 1) rest
      end
  end.

Definition tokenize (lines : list string) : list (Z * list string) :=
  tokenize_from 1 lines.

(** [asm/directives.py]. *)
Inductive AsmDirectives := START | END | BYTE | WORD | RESB | RESW.

#[global] Instance AsmDirectives_eq_dec : EqDecision AsmDirectives.
Proof. solve_decision. Defined.

Definition directive_name (d : AsmDirectives) : string :=
  match d with
  | START => "START" | END => "END" | BYTE => "BYTE" | WORD => "WORD"
  | RESB => "RESB" | RESW => "RESW"
  end.

Definition all_directives : list AsmDirectives := [START; END; BYTE; WORD; RESB; RESW].

(** [OpcodeTable | AsmDirectives]. *)
Inductive Op := OpCode (o : OpcodeTable) | Directive (d : AsmDirectives).

#[global] Instance Op_eq_dec : EqDecision Op.
Proof. solve_decision. Defined.

(** The keys [parsed_ctx] may hold; [None] is an absent key. The [value]
    key holds a [bytearray] (BYTE) or a [UInt24] (WORD), both given by
    their bytes. *)
Record ParsedCtx := {
  ctx_indexed : option bool;
  ctx_symbol : option string;
  ctx_program_name : option string;
  ctx_starting_addr : option Z;
  ctx_exec_addr : option Z;
  ctx_value : option (list Z)
}.

Definition empty_ctx : ParsedCtx := Build_ParsedCtx None None None None None None.

Record Instruction := {
  instruction_name : string;
  op : Op;
  location : Z;
  line_number : Z;
  label : option string;
  operand : option string;
  parsed_ctx : ParsedCtx
}.

Definition set_ctx (i : Instruction) (c : ParsedCtx) : Instruction :=
  Build_Instruction (instruction_name i) (op i) (location i) (line_number i)
                    (label i) (operand i) c.

Definition ctx_set_operand (c : ParsedCtx) (indexed : bool) (symbol : string) : ParsedCtx :=
  Build_ParsedCtx (if indexed then Some true else ctx_indexed c) (Some symbol)
    (ctx_program_name c) (ctx_starting_addr c) (ctx_exec_addr c) (ctx_value c).
Definition ctx_set_start (c : ParsedCtx) (name : string) (sa : Z) : ParsedCtx :=
  Build_ParsedCtx (ctx_indexed c) (ctx_symbol c) (Some name) (Some sa)
    (ctx_exec_addr c) (ctx_value c).
Definition ctx_set_exec (c : ParsedCtx) (ea : Z) : ParsedCtx :=
  Build_ParsedCtx (ctx_indexed c) (ctx_symbol c) (ctx_program_name c)
    (ctx_starting_addr c) (Some ea) (ctx_value c).
Definition ctx_set_value (c : ParsedCtx) (v : list Z) : ParsedCtx :=
  Build_ParsedCtx (ctx_indexed c) (ctx_symbol c) (ctx_program_name c)
    (ctx_starting_addr c) (ctx_exec_addr c) (Some v).

Definition new_instruction (name : string) (o : Op) (locctr line : Z)
  (lab opd : option string) : Instruction :=
  Build_Instruction name o locctr line lab opd empty_ctx.

(** [determine_instruction]: [OpcodeTable.__members__], then
    [AsmDirectives.__members__]. *)
Definition determine_instruction (ins_name : string) : result Op :=
  match find (fun o => String.eqb (menemonic o) ins_name) all_opcodes with
  | Some o => Ok (OpCode o)
  | None =>
      match find (fun d => String.eqb (directive_name d) ins_name) all_directives with
      | Some d => Ok (Directive d)
      | None => Err EInvalidInstruction
      end
  end.

Definition parse_instruction (token : list string) (locctr line : Z) : result Instruction :=
  match token with
  | [ins_name] =>
      let* o := determine_instruction ins_name in
      Ok (new_instruction ins_name o locctr line None None)
  | [first; second] =>
      match determine_instruction first with
      | Ok o => Ok (new_instruction first o locctr line None (Some second))
      | Err _ =>
          let* o := determine_instruction second in
          Ok (new_instruction second o locctr line (Some first) None)
      end
  | [lab; ins_name; opd] =>
      let* o := determine_instruction ins_name in
      Ok (new_instruction ins_name o locctr line (Some lab) (Some opd))
  | _ => Err EInvalidFormat
  end.

(** [parse_word_operand]: the [UInt24] it returns, as its bytes
    [byte1; byte2; byte3]. *)
Definition parse_word_operand (opd : string) : result (list Z) :=
  if startswith opd "0x" && (length (chars opd) =? 8)%nat then
    match py_int 16 opd with
    | Some v => UInt24_from_int v
    | None => Err EInvalidOperand
    end
  else if endswith opd "U" then
    let digit_part := str (removelast (chars opd)) in
    if py_isdigit digit_part then
      match py_int 10 digit_part with
      | Some v => UInt24_from_int v
      | None => Err EInvalidOperand
      end
    else Err EInvalidOperand
  else
    match py_int 10 opd with
    | Some v =>
        match Int24_from_int v with
        | Ok b => from_buffer 3 b
        | Err _ => Err EInvalidOperand
        end
    | None => Err EInvalidOperand
    end.

(** [bytearray.fromhex] on the two characters after [0x]: ASCII
    whitespace is skipped, hexadecimal digits go in pairs. *)
Definition is_ascii_space (c : ascii) : bool :=
  let n := code c in ((9 <=? n) && (n <=? 13)) || (n =? 32).

Definition fromhex2 (l : list ascii) : result (list Z) :=
  match l with
  | [h; l'] =>
      if is_hex_digit h && is_hex_digit l' then Ok [digit_value h * 16 + digit_value l']
      else if is_ascii_space h && is_ascii_space l' then Ok []
      else Err EInvalidOperand
  | _ => Err EInvalidOperand
  end.

Definition parse_byte_operand (opd : string) : result (list Z) :=
  let l := chars opd in
  if startswith opd "0x" && (length l =? 4)%nat then fromhex2 (drop 2 l)
  else if startswith opd "c'" && endswith opd "'" then
    encode_ascii (str (take (length l - 3) (drop 2 l)))
  else Err EInvalidOperand.

Definition require_operand (i : Instruction) : result string :=
  match operand i with Some o => Ok o | None => Err EMissingOperand end.

(** [parse_and_determine_size]: the instruction with its [parsed_ctx]
    filled in, and its size. *)
Definition parse_and_determine_size (i : Instruction) : result (Instruction * Z) :=
  let* _ :=
    match label i with
    | Some l => if String.eqb l "" then Ok tt
                else if re_label l then Ok tt else Err EInvalidLabel
    | None => Ok tt
    end in
  match op i with
  | OpCode o =>
      if has_operand o && negb (bool_decide (is_Some (operand i))) then Err EMissingOperand
      else
        match operand i with
        | Some opd =>
            match re_operand opd with
            | Some (sym, idx) => Ok (set_ctx i (ctx_set_operand (parsed_ctx i) idx sym), 3)
            | None => Err EInvalidOperand
            end
        | None => Ok (i, 3)
        end
  | Directive START =>
      match label i with
      | None => Err EMissingOperand
      | Some name =>
          let* opd := require_operand i in
          if re_hex4 opd then
            match py_int 16 opd with
            | Some sa => Ok (set_ctx i (ctx_set_start (parsed_ctx i) name sa), 0)
            | None => Err EInvalidOperand
            end
          else Err EInvalidOperand
      end
  | Directive END =>
      match operand i with
      | Some opd =>
          if re_hex4 opd then
            match py_int 16 opd with
            | Some ea => Ok (set_ctx i (ctx_set_exec (parsed_ctx i) ea), 0)
            | None => Err EInvalidOperand
            end
          else Err EInvalidOperand
      | None => Ok (set_ctx i (ctx_set_exec (parsed_ctx i) 0), 0)
      end
  | Directive d =>
      if bool_decide (d = RESB) || bool_decide (d = RESW) then
        let* opd := require_operand i in
        match py_int 10 opd with
        | Some num => Ok (i, num * (if bool_decide (d = RESB) then 1 else 3))
        | None => Err EInvalidOperand
        end
      else if bool_decide (d = WORD) then
        let* opd := require_operand i in
        let* v := parse_word_operand opd in
        Ok (set_ctx i (ctx_set_value (parsed_ctx i) v), 3)
      else
        let* opd := require_operand i in
        let* v := parse_byte_operand opd in
        if (1 <=? length v)%nat && (length v <=? 30)%nat
        then Ok (set_ctx i (ctx_set_value (parsed_ctx i) v), Z.of_nat (length v))
        else Err EInvalidOperand
  end.

Definition SYMTAB := gmap string Z.

Definition is_start (i : Instruction) : bool :=
  match op i with Directive START => true | _ => false end.

(** The loop of [parse_and_create_symtab]: symbol table, instructions so
    far, [starting_addr] and [locctr]. *)
Fixpoint parse_and_create_symtab_go (tokens : list (Z * list string))
  (symtab : SYMTAB) (instructions : list Instruction) (starting_addr locctr : Z)
  : result (SYMTAB * list Instruction * Z) :=
  match tokens with
  | [] => Ok (symtab, instructions, locctr - starting_addr)
  | (line, token) :: rest =>
      let* i0 := parse_instruction token locctr line in
      let* '(i, size) := parse_and_determine_size i0 in
      let* '(starting_addr', locctr') :=
        if is_start i then
          match ctx_starting_addr (parsed_ctx i) with
          | Some sa => Ok (sa, sa)
          | None => Err EKey
          end
        else Ok (starting_addr, locctr + size) in
      let symtab' :=
        match label i with
        | Some l => if String.eqb l "" then symtab else <[l := location i]> symtab
        | None => symtab
        end in
      parse_and_create_symtab_go rest symtab' (instructions ++ [i]) starting_addr' locctr'
  end.

Definition parse_and_create_symtab (tokens : list (Z * list string))
  : result (SYMTAB * list Instruction * Z) :=
  parse_and_create_symtab_go tokens ∅ [] 0 0.

Definition MAX_TEXT_RECORD_SIZE : Z := 30.

Definition is_res (i : Instruction) : bool :=
  match op i with Directive RESB | Directive RESW => true | _ => false end.

(** [ins_length] in [group_instructions_for_text_record]. *)
Definition ins_length (i : Instruction) : result Z :=
  match op i with
  | Directive BYTE =>
      match ctx_value (parsed_ctx i) with
      | Some v => Ok (Z.of_nat (length v))
      | None => Err EKey
      end
  | Directive WORD => Ok 3
  | OpCode _ => Ok 3
  | Directive _ => Err EGroupInvalid
  end.

(** The generator [group_instructions_for_text_record], as the list of
    the chunks it yields and the error it raises after them, if any;
    [chunk] and [length] are its local variables. *)
Fixpoint group_go (chunk : list Instruction) (len : Z) (l : list Instruction)
  : list (list Instruction * Z) * option error :=
  match l with
  | [] => (match chunk with [] => [] | _ => [(chunk, len)] end, None)
  | i :: rest =>
      if is_res i then
        let '(out, e) := group_go [] 0 rest in
        (match chunk with [] => out | _ => (chunk, len) :: out end, e)
      else
        match ins_length i with
        | Err e => ([], Some e)
        | Ok n =>
            if len + n >? MAX_TEXT_RECORD_SIZE then
              let '(out, e) := group_go [i] n rest in ((chunk, len) :: out, e)
            else group_go (chunk ++ [i]) (len + n) rest
        end
  end.

Definition group_instructions_for_text_record (l : list Instruction)
  : list (list Instruction * Z) * option error :=
  group_go [] 0 l.

Definition flush (chunk : list Instruction) (len : Z) : list (list Instruction * Z) :=
  match chunk with [] => [] | _ => [(chunk, len)] end.

(** The generator run over a prefix: the chunks it yields, the error it
    raises, and the values of [chunk] and [length] it ends with. *)
Fixpoint group_state (chunk : list Instruction) (len : Z) (l : list Instruction)
  : list (list Instruction * Z) * option error * (list Instruction * Z) :=
  match l with
  | [] => ([], None, (chunk, len))
  | i :: rest =>
      if is_res i then
        let '(out, e, st) := group_state [] 0 rest in (flush chunk len ++ out, e, st)
      else
        match ins_length i with
        | Err e => ([], Some e, (chunk, len))
        | Ok n =>
            if len + n >? MAX_TEXT_RECORD_SIZE then
              let '(out, e, st) := group_state [i] n rest in ((chunk, len) :: out, e, st)
            else group_state (chunk ++ [i]) (len + n) rest
        end
  end.

(** An instruction whose object code fits one Text record. *)
Definition within_limit (i : Instruction) : bool :=
  match ins_length i with Ok n => n <=? MAX_TEXT_RECORD_SIZE | Err _ => true end.

(** The objects of an object program ([ObjectProgramRecord]); UInt24
    fields given by their bytes. *)
Inductive ObjectProgramRecord :=
| HeaderObj (program_name : list Z) (starting_address program_length : list Z)
| TextObj (starting_address : list Z) (length : Z)
| ModificationObj (address : list Z) (length : Z)
| EndObj (exec_address : list Z)
| CodeObj (c : SICFormatObjectCode)
| ValueObj (bytes : list Z).

(** [HeaderRecord.create]: the name is padded with NUL to 6 bytes; a
    longer one does not fit the [c_char * 6] field. *)
Definition HeaderRecord_create (name : list Z) (sa pl : Z) : result ObjectProgramRecord :=
  if (length name <=? 6)%nat then
    let* s := UInt24_from_int sa in
    let* p := UInt24_from_int pl in
    Ok (HeaderObj (name ++ replicate (6 - length name) 0) s p)
  else Err ENameTooLong.

Definition TextRecord_create (sa len : Z) : result ObjectProgramRecord :=
  let* s := UInt24_from_int sa in Ok (TextObj s (c_uint 8 len)).

Definition ModificationRecord_create (a len : Z) : result ObjectProgramRecord :=
  let* s := UInt24_from_int a in Ok (ModificationObj s (c_uint 8 len)).

Definition EndRecord_create (ea : Z) : result ObjectProgramRecord :=
  let* s := UInt24_from_int ea in Ok (EndObj s).

(** The body of the inner loop of [create_object_program]: the objects
    appended to [object_program] and to [modification_records]. *)
Definition emit_instruction (symtab : SYMTAB) (i : Instruction)
  : result (list ObjectProgramRecord * list ObjectProgramRecord) :=
  match op i with
  | Directive BYTE | Directive WORD =>
      match ctx_value (parsed_ctx i) with
      | Some v => Ok ([ValueObj v], [])
      | None => Err EKey
      end
  | Directive _ => Err EGroupInvalid
  | OpCode o =>
      let indexed := default false (ctx_indexed (parsed_ctx i)) in
      match ctx_symbol (parsed_ctx i) with
      | Some symbol =>
          match symtab !! symbol with
          | Some address =>
              let* m := ModificationRecord_create (location i + 1) 2 in
              Ok ([CodeObj (SIC_create o address indexed)], [m])
          | None => Err EUndefinedSymbol
          end
      | None => Ok ([CodeObj (SIC_create o 0 indexed)], [])
      end
  end.

Fixpoint emit_chunk (symtab : SYMTAB) (chunk : list Instruction)
  : result (list ObjectProgramRecord * list ObjectProgramRecord) :=
  match chunk with
  | [] => Ok ([], [])
  | i :: rest =>
      let* '(o1, m1) := emit_instruction symtab i in
      let* '(o2, m2) := emit_chunk symtab rest in
      Ok (o1 ++ o2, m1 ++ m2)
  end.

(** The outer loop: one Text record per chunk, then the chunk's objects. *)
Fixpoint emit_chunks (symtab : SYMTAB) (chunks : list (list Instruction * Z))
  : result (list ObjectProgramRecord * list ObjectProgramRecord) :=
  match chunks with
  | [] => Ok ([], [])
  | (chunk, len) :: rest =>
      let sa := match chunk with i :: _ => location i | [] => 0 end in
      match chunk with
      | [] => Err EKey
      | _ =>
          let* t := TextRecord_create sa len in
          let* '(o1, m1) := emit_chunk symtab chunk in
          let* '(o2, m2) := emit_chunks symtab rest in
          Ok (t :: o1 ++ o2, m1 ++ m2)
      end
  end.

Definition key {A} (v : option A) : result A :=
  match v with Some x => Ok x | None => Err EKey end.

Definition create_object_program (symtab : SYMTAB) (instructions : list Instruction)
  (program_length : Z) : result (list ObjectProgramRecord) :=
  if (length instructions <? 3)%nat then Err ETooFewInstructions else
  match head instructions, last instructions with
  | Some start, Some end_ =>
      if is_start start && bool_decide (op end_ = Directive END) then
        let* starting_address := key (ctx_starting_addr (parsed_ctx start)) in
        let* program_name := key (ctx_program_name (parsed_ctx start)) in
        let* executing_address := key (ctx_exec_addr (parsed_ctx end_)) in
        let* name := encode_ascii program_name in
        let* header := HeaderRecord_create name starting_address program_length in
        let '(chunks, raised) :=
          group_instructions_for_text_record (drop 1 (removelast instructions)) in
        let* '(objs, mods) := emit_chunks symtab chunks in
        let* _ := match raised with Some e => Err e | None => Ok tt end in
        let* end_record := EndRecord_create executing_address in
        Ok (header :: objs ++ mods ++ [end_record])
      else Err EStartEnd
  | _, _ => Err ETooFewInstructions
  end.

Definition assemble_program (program : string) : result (list ObjectProgramRecord) :=
  let lines := splitlines program in
  let line_tokens := tokenize lines in
  let* '(symtab, instructions, program_length) := parse_and_create_symtab line_tokens in
  create_object_program symtab instructions program_length.

(** Programs for the end-to-end examples. *)
Definition newline : string := String (ascii_of_nat 10) EmptyString.

Definition lines (ls : list string) : string :=
  foldr (fun l acc => String.append l (String.append newline acc)) "" ls.

Definition word_program : string :=
  lines ["P START 1000"; "W WORD 65536"; "END"].
Definition word_program_too_large : string :=
  lines ["P START 1000"; "W WORD 70000000"; "END"].
Definition indented_comment_program : string :=
  lines ["P START 1000"; "   # note"; "FIRST RSUB"; "END"].
Definition program_without_comment : string :=
  lines ["P START 1000"; "FIRST RSUB"; "END"].
Definition label_at_zero_program : string :=
  lines ["P START 0000"; "FIRST LDA FIRST"; "END"].
Definition undefined_symbol_program : string :=
  lines ["P START 0000"; "FIRST J NOWHR"; "END"].

(** Single instructions for the examples. *)
Definition rsub_instruction : Instruction :=
  new_instruction "RSUB" (OpCode RSUB) 0 1 None None.
Definition j_nowhere_instruction : Instruction :=
  set_ctx (new_instruction "J" (OpCode J) 0 1 None (Some "NOWHR"))
          (ctx_set_operand empty_ctx false "NOWHR").
Definition lowercase_label_instruction : Instruction :=
  new_instruction "RSUB" (OpCode RSUB) 0 1 (Some "abc") None.

(* ------------------------------------------------------------------ *)
(** ** The object file ([asm/__main__.py]: [f.write(record)] per record) *)

(** [bytes(record)]: the raw bytes of each object, fields in declaration
    order. *)
Definition record_bytes (r : ObjectProgramRecord) : list Z :=
  match r with
  | HeaderObj name sa pl => 0 :: name ++ sa ++ pl
  | TextObj sa len => 1 :: sa ++ [len]
  | ModificationObj a len => 3 :: a ++ [len]
  | EndObj ea => 2 :: ea
  | CodeObj c => SIC_bytes c
  | ValueObj b => b
  end.

Definition object_file (out : list ObjectProgramRecord) : list Z :=
  concat (map record_bytes out).

(* ------------------------------------------------------------------ *)
(** ** [program_iter] ([common/program_iter.py], used by [asmt.py]) *)

(** The generator as the list of the [(record, buffer)] pairs it yields.
    Its [parse_record] is the same as the loader's. The loop stops at
    the first [ValueError]; after a Text record it skips [record.length]
    bytes of data. Every successful iteration consumes at least four
    bytes, so [S (length buffer)] iterations cover the whole loop. *)
Fixpoint program_iter_go (fuel : nat) (buffer : list Z) : list (ObjRecord * list Z) :=
  match fuel with
  | O => []
  | S fuel' =>
      match parse_record buffer with
      | Err _ => []
      | Ok (record, buffer') =>
          (record, buffer') ::
          program_iter_go fuel'
            (match record with
             | TextRecord _ len => drop (Z.to_nat len) buffer'
             | _ => buffer'
             end)
      end
  end.

Definition program_iter (buffer : list Z) : list (ObjRecord * list Z) :=
  program_iter_go (S (length buffer)) buffer.

(** The reader's view of a record the assembler writes: the same class in
    [common/object_program.py]; instruction and data objects are not
    records. *)
Definition record_of (r : ObjectProgramRecord) : option ObjRecord :=
  match r with
  | HeaderObj name sa pl => Some (HeaderRecord name sa pl)
  | TextObj sa len => Some (TextRecord sa len)
  | ModificationObj a len => Some (ModificationRecord a len)
  | EndObj ea => Some (EndRecord ea)
  | CodeObj _ | ValueObj _ => None
  end.

(** A record written as [bytes(record)] (fields of their [ctypes] widths),
    followed, for a Text record, by the objects whose bytes it covers. *)
Definition segment_ok (sg : ObjectProgramRecord * list ObjectProgramRecord) : Prop :=
  let '(r, objs) := sg in
  match r with
  | HeaderObj name sa pl =>
      length name = 6%nat /\ length sa = 3%nat /\ length pl = 3%nat /\ objs = []
  | TextObj sa len =>
      length sa = 3%nat /\ 0 <= len /\ length (object_file objs) = Z.to_nat len
  | ModificationObj a _ => length a = 3%nat /\ objs = []
  | EndObj ea => length ea = 3%nat /\ objs = []
  | CodeObj _ | ValueObj _ => False
  end.

Definition segments_out (segs : list (ObjectProgramRecord * list ObjectProgramRecord))
  : list ObjectProgramRecord :=
  concat (map (fun sg => fst sg :: snd sg) segs).


(* ------------------------------------------------------------------ *)
(** ** Shapes and inputs used by the properties below *)

Definition record_name : list Z := [84; 69; 83; 84].

Definition header_seen (m : list Z) : LoaderState :=
  {| ld_mem := m; ld_header := true; ld_end := false; ld_exec := 0; ld_terminal := 0 |}.

Definition small_memory : list Z := replicate 8 0.

Definition store_machine : Machine :=
  set_reg (start_machine (replicate 8 0) 0 []) REG_A [1; 2; 3].

Definition symtab_sound (symtab : SYMTAB) (instructions : list Instruction) : Prop :=
  forall l a, symtab !! l = Some a ->
  exists i, In i instructions /\ label i = Some l /\ location i = a.

Definition symtab_example_tokens : list (Z * list string) :=
  tokenize (splitlines (lines ["P START 1000"; "FIRST LDA FIRST"; "BUF RESW 2";
                               "LAST RSUB"; "END"])).

Definition is_text_or_code (r : ObjectProgramRecord) : Prop :=
  match r with TextObj _ _ | CodeObj _ | ValueObj _ => True | _ => False end.

Definition is_modification (r : ObjectProgramRecord) : Prop :=
  match r with ModificationObj _ _ => True | _ => False end.

Definition iter_example : list (ObjectProgramRecord * list ObjectProgramRecord) :=
  [(HeaderObj [84; 69; 83; 84; 0; 0] [0; 16; 0] [0; 0; 6], []);
   (TextObj [0; 16; 0] 6,
     [CodeObj {| sic_opcode := 0; sic_ia := 4099 |}; ValueObj [0; 0; 42]]);
   (ModificationObj [0; 16; 1] 2, []);
   (EndObj [0; 16; 0], [])].

(* ================================================================== *)
(** * Loader theorems *)

Section LoaderRelation.

Variables b1 b2 : Z.

(** Two runs of the loader on the same data at bases [b1] and [b2]. *)
Definition loader_rel (s1 s2 : LoaderState) : Prop :=
  ld_header s1 = ld_header s2 /\ ld_end s1 = ld_end s2 /\
  ld_exec s1 = ld_exec s2 /\
  (ld_end s1 = true -> ld_header s1 = true) /\
  (ld_header s1 = true -> ld_terminal s2 - ld_terminal s1 = b2 - b1).

Lemma load_record_rel s1 s2 r d s1' d1 s2' d2 :
  loader_rel s1 s2 ->
  load_record b1 s1 r d = Ok (s1', d1) ->
  load_record b2 s2 r d = Ok (s2', d2) ->
  loader_rel s1' s2' /\ d1 = d2.
Proof.
  intros (Hh & He & Hx & Hi & Ht) R1 R2.
  destruct r as [name sa pl | sa len | ea | a len]; simpl in R1, R2.
  - destruct (decode_utf8 _); simpl in *; [|discriminate].
    destruct (_ <? _); [discriminate|]. destruct (_ <? _); [discriminate|].
    injection R1 as <- <-. injection R2 as <- <-.
    unfold loader_rel; simpl; repeat split; intros; auto; lia.
  - rewrite <- Hh in R2. destruct (ld_header s1) eqn:H1; simpl in *; [|discriminate].
    destruct (mem_assign _ _ _ _); simpl in R1; [|discriminate].
    destruct (mem_assign (ld_mem s2) _ _ _); simpl in R2; [|discriminate].
    injection R1 as <- <-. injection R2 as <- <-.
    unfold loader_rel, set_mem; simpl; repeat split; intros; try congruence; auto.
  - rewrite <- Hh in R2. destruct (ld_header s1) eqn:H1; simpl in *; [|discriminate].
    injection R1 as <- <-. injection R2 as <- <-.
    unfold loader_rel; simpl; repeat split; intros; try congruence; auto.
  - destruct (ld_header s1); simpl in *; [|discriminate].
    destruct (from_buffer _ _); simpl in R1; discriminate.
Qed.

Lemma load_loop_rel fuel : forall s1 s2 d s1' s2',
  loader_rel s1 s2 ->
  load_loop fuel b1 s1 d = Ok s1' ->
  load_loop fuel b2 s2 d = Ok s2' ->
  loader_rel s1' s2'.
Proof.
  induction fuel as [|fuel IH]; intros s1 s2 d s1' s2' Hr R1 R2; simpl in R1, R2.
  - injection R1 as <-. injection R2 as <-. exact Hr.
  - destruct d as [|x d].
    + injection R1 as <-. injection R2 as <-. exact Hr.
    + destruct (parse_record (x :: d)) as [[r d1]|e]; simpl in R1, R2; [|discriminate].
      destruct (load_record b1 s1 r d1) as [[t1 e1]|e] eqn:E1; simpl in R1; [|discriminate].
      destruct (load_record b2 s2 r d1) as [[t2 e2]|e] eqn:E2; simpl in R2; [|discriminate].
      destruct (load_record_rel _ _ _ _ _ _ _ _ Hr E1 E2) as [Hr' <-].
      assert (He : ld_end t1 = ld_end t2) by apply Hr'.
      rewrite <- He in R2. destruct (ld_end t1).
      * injection R1 as <-. injection R2 as <-. exact Hr'.
      * exact (IH _ _ _ _ _ Hr' R1 R2).
Qed.

End LoaderRelation.

Lemma load_program_end_header m d b e t m' :
  load_program m d b = Ok (e, t, m') ->
  exists st, load_loop (length d) b (initial_loader_state m) d = Ok st /\
    ld_end st = true /\ ld_exec st = e /\ ld_terminal st = t.
Proof.
  unfold load_program. destruct (load_loop _ _ _ _) as [st|err]; simpl; [|discriminate].
  destruct (ld_end st) eqn:E; simpl; [|discriminate].
  intros H. injection H as <- <- <-. eauto.
Qed.

(** C1: the loader's Modification branch never patches memory.  The 2-byte
    slice is read through [UInt24.from_buffer_copy], which needs 3 bytes,
    and the write-back calls the missing [UInt24.to_bytes]; either way the
    branch raises, so the object program of [test.py] cannot be loaded. *)
Theorem load_modification_always_fails :
  (forall base st a len data,
      exists e, load_record base st (ModificationRecord a len) data = Err e) /\
  load_program sim_memory test_program 6 = Err EBufferTooSmall.
Proof.
  split.
  - intros base st a len data. simpl.
    destruct (ld_header st); simpl; [|eauto].
    destruct (from_buffer _ _); simpl; eauto.
  - vm_compute. reflexivity.
Qed.

(** C2 (as stated): loading [nop_program] at bases 0 and 6 yields the same
    execution address 0, not addresses 6 apart. *)
Lemma load_exec_address_not_offset :
  load_exec (load_program sim_memory nop_program 0) = Some 0 /\
  load_exec (load_program sim_memory nop_program 6) = Some 0 /\
  0 - 0 <> 6 - 0.
Proof.
  split; [vm_compute; reflexivity|]. split; [vm_compute; reflexivity|]. lia.
Qed.

(** C2 (amended): when loading the same data succeeds at bases [b1] and
    [b2], the execution addresses are equal (the End record's address is
    returned as it is) and the terminal addresses differ by [b2 - b1]. *)
Theorem load_exec_address_base_independent m1 m2 d b1 b2 e1 t1 n1 e2 t2 n2 :
  load_program m1 d b1 = Ok (e1, t1, n1) ->
  load_program m2 d b2 = Ok (e2, t2, n2) ->
  e1 = e2 /\ t2 - t1 = b2 - b1.
Proof.
  intros L1 L2.
  destruct (load_program_end_header _ _ _ _ _ _ L1) as (s1 & R1 & E1 & X1 & T1).
  destruct (load_program_end_header _ _ _ _ _ _ L2) as (s2 & R2 & E2 & X2 & T2).
  assert (Hr : loader_rel b1 b2 s1 s2).
  { eapply load_loop_rel; [|exact R1|exact R2].
    unfold loader_rel; simpl; repeat split; discriminate. }
  destruct Hr as (Hh & He & Hx & Hi & Ht). subst. split; auto.
Qed.

Lemma load_exec_address_base_independent_witness :
  load_program (replicate 12 0) nop_program 0
    = Ok (0, 3, [23; 0; 0; 0; 0; 0; 0; 0; 0; 0; 0; 0]) /\
  load_program (replicate 12 0) nop_program 6
    = Ok (0, 9, [0; 0; 0; 0; 0; 0; 23; 0; 0; 0; 0; 0]) /\
  0 = 0 /\ 9 - 3 = 6 - 0.
Proof.
  assert (H1 : load_program (replicate 12 0) nop_program 0
                 = Ok (0, 3, [23; 0; 0; 0; 0; 0; 0; 0; 0; 0; 0; 0]))
    by (vm_compute; reflexivity).
  assert (H2 : load_program (replicate 12 0) nop_program 6
                 = Ok (0, 9, [0; 0; 0; 0; 0; 0; 23; 0; 0; 0; 0; 0]))
    by (vm_compute; reflexivity).
  split; [exact H1|]. split; [exact H2|].
  exact (load_exec_address_base_independent _ _ _ _ _ _ _ _ _ _ _ H1 H2).
Defined.

(* ================================================================== *)
(** * Integer encodings *)

Lemma lor_shiftl_low a b k :
  0 <= k -> 0 <= b < 2 ^ k -> Z.lor (Z.shiftl a k) b = Z.shiftl a k + b.
Proof.
  intros Hk Hb.
  assert (Hd : Z.land (Z.shiftl a k) b = 0).
  { apply Z.bits_inj'. intros n Hn.
    rewrite Z.land_spec, Z.bits_0, Z.shiftl_spec by lia.
    destruct (Z.lt_ge_cases n k) as [Hlt|Hge].
    - rewrite Z.testbit_neg_r by lia. reflexivity.
    - rewrite <- (Z.mod_small b (2 ^ k)) by lia.
      rewrite Z.mod_pow2_bits_high by lia. apply andb_false_r. }
  rewrite <- Z.lxor_lor by exact Hd.
  symmetry. apply Z.add_nocarry_lxor. exact Hd.
Qed.

Lemma lor_low a b k :
  0 <= k -> 0 <= b < 2 ^ k -> Z.lor (a * 2 ^ k) b = a * 2 ^ k + b.
Proof. intros. rewrite <- Z.shiftl_mul_pow2 by lia. apply lor_shiftl_low; lia. Qed.

Lemma land_255 x : Z.land x 255 = x mod 256.
Proof. change 255 with (Z.ones 8). rewrite Z.land_ones by lia. reflexivity. Qed.

(** [UInt24.to_int] inverts [UInt24.from_int] on [0 .. 0xFFFFFF]. *)
Lemma uint24_roundtrip v :
  0 <= v <= 16777215 -> UInt24_to_int (int24_bytes v) = v.
Proof.
  intros Hv. unfold UInt24_to_int, int24_bytes.
  rewrite !land_255, !Z.shiftr_div_pow2 by lia.
  change (2 ^ 16) with 65536. change (2 ^ 8) with 256.
  assert (Ha : 0 <= v / 65536 < 256)
    by (split; [apply Z.div_pos|apply Z.div_lt_upper_bound]; lia).
  rewrite (Z.mod_small (v / 65536) 256) by lia.
  pose proof (Z.mod_pos_bound (v / 256) 256 ltac:(lia)) as Hb.
  pose proof (Z.mod_pos_bound v 256 ltac:(lia)) as Hc.
  rewrite !Z.shiftl_mul_pow2 by lia.
  rewrite (lor_low (v / 65536) ((v / 256) mod 256 * 2 ^ 8) 16)
    by (change (2 ^ 16) with 65536; change (2 ^ 8) with 256; lia).
  replace (v / 65536 * 2 ^ 16 + (v / 256) mod 256 * 2 ^ 8)
    with ((v / 65536 * 256 + (v / 256) mod 256) * 2 ^ 8)
    by (change (2 ^ 16) with 65536; change (2 ^ 8) with 256; lia).
  rewrite lor_low by (change (2 ^ 8) with 256; lia).
  change (2 ^ 8) with 256.
  pose proof (Z.div_mod v 256 ltac:(lia)) as E1.
  pose proof (Z.div_mod (v / 256) 256 ltac:(lia)) as E2.
  rewrite Z.div_div in E2 by lia. change (256 * 256) with 65536 in E2. lia.
Qed.

(* ================================================================== *)
(** * Simulator theorems *)

Ltac run_binds :=
  repeat match goal with
  | H : bind ?r _ = Ok _ |- _ =>
      let E := fresh "E" in destruct r eqn:E; simpl in H; [|discriminate H]
  | H : Ok _ = Ok _ |- _ => injection H as <-
  | H : context [if ?b then _ else _] |- _ => destruct b
  | H : match ?l with [] => _ | _ :: _ => _ end = Ok _ |- _ => destruct l
  end.

(** Effects of opcodes other than J, JEQ, JLT, JGT, JSUB and RSUB leave the
    program counter alone. *)
Lemma effect_keeps_pc op s d s' :
  redirects op = false -> effect op s d = Ok s' -> reg s' REG_PC = reg s REG_PC.
Proof.
  intros Hr He.
  destruct op; simpl in Hr; try discriminate Hr; simpl in He;
    unfold make_load_effect, make_store_effect, tix_effect, compare_effect,
      compare_effect_reg, make_arithmetic_effect, rd_effect, wd_effect, halt_effect in He;
    run_binds; try discriminate; reflexivity.
Qed.

Lemma step_next_pc s s' op :
  fetch_op s = Some op -> redirects op = false -> step s = Next s' ->
  UInt24_to_int (reg s' REG_PC) = UInt24_to_int (reg s REG_PC) + 3.
Proof.
  unfold fetch_op, step. intros Hf Hr Hs.
  destruct (fetch s) as [code|e]; [|discriminate].
  rewrite Hf in Hs.
  unfold UInt24_from_int in Hs.
  destruct ((0 <=? _) && (_ <=? 16777215)) eqn:Hb; [|discriminate].
  destruct (effect op _ _) as [s1|e] eqn:He; [|destruct e; discriminate].
  injection Hs as <-.
  rewrite (effect_keeps_pc _ _ _ _ Hr He). simpl.
  apply andb_prop in Hb as [H1 H2]. apply Z.leb_le in H1. apply Z.leb_le in H2.
  apply uint24_roundtrip. lia.
Qed.

Lemma bind_err {A B} (r : result A) (k : A -> result B) e :
  bind r k = Err e -> r = Err e \/ exists a, r = Ok a /\ k a = Err e.
Proof. destruct r; simpl; eauto. intros H; injection H as ->; auto. Qed.

(** Only [halt_effect] raises [KeyboardInterrupt]: the primitives the other
    effects use raise other errors. *)
Definition not_kbi {A} (r : result A) : Prop := r <> Err KeyboardInterrupt.

Lemma from_buffer_not_kbi n b : not_kbi (from_buffer n b).
Proof. unfold not_kbi, from_buffer. destruct (_ <=? _)%nat; discriminate. Qed.
Lemma mem_assign_not_kbi m a b v : not_kbi (mem_assign m a b v).
Proof. unfold not_kbi, mem_assign. repeat case_match; discriminate. Qed.
Lemma UInt24_from_int_not_kbi v : not_kbi (UInt24_from_int v).
Proof. unfold not_kbi, UInt24_from_int. case_match; discriminate. Qed.
Lemma Int24_from_int_not_kbi v : not_kbi (Int24_from_int v).
Proof. unfold not_kbi, Int24_from_int. case_match; discriminate. Qed.
Lemma decode_utf8_not_kbi v : not_kbi (decode_utf8 v).
Proof. unfold not_kbi, decode_utf8. case_match; discriminate. Qed.

Ltac no_kbi :=
  repeat match goal with
  | H : bind _ _ = Err _ |- _ =>
      apply bind_err in H as [H|(? & ? & H)]
  | H : (if ?b then _ else _) = Err _ |- _ => destruct b
  | H : match ?l with [] => _ | _ :: _ => _ end = Err _ |- _ => destruct l
  | H : Ok _ = Err _ |- _ => discriminate H
  | H : Err ?e = Err KeyboardInterrupt |- _ => injection H as H
  | H : ?e = KeyboardInterrupt |- _ => discriminate H
  end;
  try match goal with
  | H : from_buffer _ _ = Err KeyboardInterrupt |- _ => exact (from_buffer_not_kbi _ _ H)
  | H : mem_assign _ _ _ _ = Err KeyboardInterrupt |- _ => exact (mem_assign_not_kbi _ _ _ _ H)
  | H : UInt24_from_int _ = Err KeyboardInterrupt |- _ => exact (UInt24_from_int_not_kbi _ H)
  | H : Int24_from_int _ = Err KeyboardInterrupt |- _ => exact (Int24_from_int_not_kbi _ H)
  | H : decode_utf8 _ = Err KeyboardInterrupt |- _ => exact (decode_utf8_not_kbi _ H)
  | H : get_word _ _ = Err KeyboardInterrupt |- _ => exact (from_buffer_not_kbi _ _ H)
  end.

Lemma effect_not_halt op s d :
  op <> HLT -> effect op s d <> Err KeyboardInterrupt.
Proof.
  intros Hop He.
  destruct op; try (exfalso; apply Hop; reflexivity); simpl in He;
    unfold make_load_effect, make_store_effect, tix_effect, compare_effect,
      compare_effect_reg, make_arithmetic_effect, make_jump_effect, jsub_effect,
      rsub_effect, rd_effect, wd_effect in He;
    no_kbi.
Qed.

(** C5 (amended): one iteration of the run loop.  After an opcode whose
    effect does not write the program counter, the counter is 3 further;
    the loop stops on [Halted] exactly when the opcode is HLT, and on an
    unknown opcode only when [code_lut] has none.  No step consults a
    terminal address. *)
Theorem run_loop_pc_and_stop s :
  (forall s' op, fetch_op s = Some op -> redirects op = false -> step s = Next s' ->
     UInt24_to_int (reg s' REG_PC) = UInt24_to_int (reg s REG_PC) + 3) /\
  (step s = Stop Halted -> fetch_op s = Some HLT) /\
  (fetch_op s = Some HLT ->
     0 <= UInt24_to_int (reg s REG_PC) + 3 <= 16777215 -> step s = Stop Halted) /\
  (forall c, step s = Stop (UnknownOpcode c) -> fetch_op s = None /\ code_lut c = None).
Proof.
  split; [intros s' op; apply step_next_pc|].
  unfold step, fetch_op. destruct (fetch s) as [code|e].
  2: { split; [discriminate|]. split; [discriminate|]. intros c H; discriminate. }
  destruct (code_lut (sic_opcode code)) as [op|] eqn:Hl.
  2: { split; [discriminate|]. split; [discriminate|].
       intros c H. injection H as <-. auto. }
  split; [|split].
  - destruct (UInt24_from_int _); [|discriminate].
    destruct (effect op _ _) eqn:He; [discriminate|].
    destruct e; try discriminate. intros _.
    destruct (decide (op = HLT)) as [->|Hne]; [reflexivity|].
    exfalso. exact (effect_not_halt _ _ _ Hne He).
  - intros Hop Hpc. injection Hop as ->.
    unfold UInt24_from_int.
    destruct ((0 <=? _) && (_ <=? 16777215)) eqn:Hb.
    + reflexivity.
    + exfalso. apply andb_false_iff in Hb as [Hb|Hb];
        [apply Z.leb_gt in Hb|apply Z.leb_gt in Hb]; lia.
  - intros c. destruct (UInt24_from_int _); [|discriminate].
    destruct (effect op _ _) as [|[]]; discriminate.
Qed.

Lemma run_loop_pc_and_stop_witness :
  fetch_op demo_machine = Some NOP /\ redirects NOP = false /\
  UInt24_to_int (reg (match step demo_machine with Next s' => s' | Stop _ => demo_machine end) REG_PC)
    = UInt24_to_int (reg demo_machine REG_PC) + 3.
Proof.
  assert (Hf : fetch_op demo_machine = Some NOP) by reflexivity.
  assert (Hr : redirects NOP = false) by reflexivity.
  split; [exact Hf|]. split; [exact Hr|].
  apply (proj1 (run_loop_pc_and_stop demo_machine) _ NOP Hf Hr).
  vm_compute. reflexivity.
Defined.

(** C5 (as stated): the program [nop_program] has terminal address 3, yet
    the run loop started at its execution address executes the
    instruction at address 3 and keeps running. *)
Lemma run_executes_at_terminal_address :
  load_terminal (load_program sim_memory nop_program 0) = Some 3 /\
  load_exec (load_program sim_memory nop_program 0) = Some 0 /\
  run_trace 2 (machine_after_load (load_program sim_memory nop_program 0)) = ([0; 3], None).
Proof. split; [|split]; vm_compute; reflexivity. Qed.

(** C4: ADD and SUB read the accumulator unsigned.  With A = 0xFFFFFF (-1
    as signed 24-bit) and the word 1 (resp. 0) the sum 16777216 (resp. the
    difference 16777215) is out of [Int24] range and the effect raises,
    where signed arithmetic gives 0 (resp. -1). *)
Theorem arithmetic_effect_unsigned_accumulator :
  make_arithmetic_effect Z.add (acc_machine [255; 255; 255] [0; 0; 1]) 0 = Err ERange /\
  spec_signed_arith Z.add [255; 255; 255] [0; 0; 1] = [0; 0; 0] /\
  make_arithmetic_effect Z.sub (acc_machine [255; 255; 255] [0; 0; 0]) 0 = Err ERange /\
  spec_signed_arith Z.sub [255; 255; 255] [0; 0; 0] = [255; 255; 255].
Proof. repeat split; vm_compute; reflexivity. Qed.

(* ================================================================== *)
(** * Instruction words *)

Lemma bytes16 x : 0 <= x < 65536 -> Z.land x 255 + 256 * Z.shiftr x 8 = x.
Proof.
  intros Hx. rewrite land_255, Z.shiftr_div_pow2 by lia. change (2 ^ 8) with 256.
  pose proof (Z.div_mod x 256 ltac:(lia)). lia.
Qed.

Lemma SIC_decode_bytes op a idx :
  SIC_from_bytes (SIC_bytes (SIC_create op a idx))
  = Ok {| sic_opcode := c_uint 8 (opcode op);
          sic_ia := c_uint 16 (Z.lor a (if idx then 32768 else 0)) |}.
Proof.
  unfold SIC_from_bytes, SIC_bytes, SIC_create. simpl. do 2 f_equal.
  apply bytes16. unfold c_uint. apply Z.mod_pos_bound. lia.
Qed.

Lemma all_from_spec n : forall k f j,
  all_from n k f = true -> k <= j < k + Z.of_nat n -> f j = true.
Proof.
  induction n as [|n IH]; simpl; intros k f j H Hj; [lia|].
  apply andb_prop in H as [H1 H2].
  destruct (Z.eq_dec j k) as [->|Hne]; [exact H1|].
  apply (IH (k + 1)); [exact H2|lia].
Qed.

Lemma sic_ia_roundtrips_all a idx :
  0 <= a <= 32767 -> sic_ia_roundtrips a idx = true.
Proof.
  intros Ha.
  assert (Hall : all_from (Z.to_nat 32768) 0
                   (fun k => sic_ia_roundtrips k true && sic_ia_roundtrips k false) = true)
    by (vm_compute; reflexivity).
  pose proof (all_from_spec _ _ _ a Hall) as H.
  rewrite Z2Nat.id in H by lia. specialize (H ltac:(lia)).
  apply andb_prop in H as [Ht Hf]. destruct idx; assumption.
Qed.

(** C10: decoding the word built by [SICFormatObjectCode.create] gives back
    the opcode, the indexed flag and the address for every address in
    [0 .. 0x7FFF]; [create] has no range check, and the address 0x8000
    decodes to a different [(indexed, address)] pair. *)
Theorem sic_roundtrip_15bit :
  (forall op idx a, 0 <= a <= 32767 ->
     exists c, SIC_from_bytes (SIC_bytes (SIC_create op a idx)) = Ok c /\
       code_lut (sic_opcode c) = Some op /\ SIC_indexed c = idx /\ SIC_address c = a) /\
  (exists a, 32768 <= a /\ forall op idx c,
       SIC_from_bytes (SIC_bytes (SIC_create op a idx)) = Ok c ->
       (SIC_indexed c, SIC_address c) <> (idx, a)).
Proof.
  split.
  - intros op idx a Ha. rewrite SIC_decode_bytes. eexists. split; [reflexivity|].
    split; [destruct op; reflexivity|].
    pose proof (sic_ia_roundtrips_all a idx Ha) as H.
    unfold sic_ia_roundtrips in H. simpl.
    apply andb_prop in H as [H1 H2].
    apply Bool.eqb_prop in H1. apply Z.eqb_eq in H2. auto.
  - exists 32768. split; [lia|]. intros op idx c H.
    rewrite SIC_decode_bytes in H. injection H as <-.
    destruct idx; vm_compute; congruence.
Qed.

Lemma sic_roundtrip_15bit_witness :
  0 <= 100 <= 32767 /\
  exists c, SIC_from_bytes (SIC_bytes (SIC_create LDA 100 true)) = Ok c /\
    code_lut (sic_opcode c) = Some LDA /\ SIC_indexed c = true /\ SIC_address c = 100.
Proof.
  split; [lia|].
  apply (proj1 sic_roundtrip_15bit LDA true 100). lia.
Defined.

(* ------------------------------------------------------------------ *)
(** ** Text-record grouping *)

Lemma group_go_app pre : forall chunk len post,
  group_go chunk len (pre ++ post) =
  let '(o1, e1, (c', n')) := group_state chunk len pre in
  match e1 with
  | Some e => (o1, Some e)
  | None => let '(o2, e2) := group_go c' n' post in (o1 ++ o2, e2)
  end.
Proof.
  induction pre as [|i pre IH]; intros chunk len post; simpl.
  - destruct (group_go chunk len post); reflexivity.
  - destruct (is_res i).
    + rewrite IH. destruct (group_state [] 0 pre) as [[o e] [c' n']].
      destruct e as [e|].
      * destruct chunk; reflexivity.
      * destruct (group_go c' n' post) as [o2 e2].
        destruct chunk; simpl; rewrite ?app_assoc; reflexivity.
    + destruct (ins_length i) as [n|e]; [|reflexivity].
      destruct (len + n >? MAX_TEXT_RECORD_SIZE).
      * rewrite IH. destruct (group_state [i] n pre) as [[o e] [c' n']].
        destruct e as [e|]; [reflexivity|].
        destruct (group_go c' n' post); reflexivity.
      * apply IH.
Qed.

Lemma group_go_state chunk len l :
  group_go chunk len l =
  let '(o1, e1, (c', n')) := group_state chunk len l in
  match e1 with
  | Some e => (o1, Some e)
  | None => (o1 ++ flush c' n', None)
  end.
Proof.
  rewrite <- (app_nil_r l) at 1. rewrite group_go_app.
  destruct (group_state chunk len l) as [[o e] [c' n']].
  destruct e; [reflexivity|]. destruct c'; reflexivity.
Qed.

Lemma group_state_empty_len l : forall chunk len o c' n',
  group_state chunk len l = (o, None, (c', n')) ->
  (chunk = [] -> len = 0) -> c' = [] -> n' = 0.
Proof.
  induction l as [|i l IH]; intros chunk len o c' n' H Hc; simpl in H.
  - inversion H; subst; auto.
  - destruct (is_res i).
    + destruct (group_state [] 0 l) as [[o1 e] st] eqn:E. inversion H; subst.
      eapply IH; [exact E | auto].
    + destruct (ins_length i) as [n|e]; [|discriminate].
      destruct (len + n >? MAX_TEXT_RECORD_SIZE).
      * destruct (group_state [i] n l) as [[o1 e] st] eqn:E. inversion H; subst.
        eapply IH; [exact E | discriminate].
      * eapply IH; [exact H|]. intros Hx. destruct chunk; discriminate.
Qed.

Lemma group_go_head l : forall i j k o,
  group_go (i :: j) k l = (o, None) ->
  exists j' k' rest, o = (i :: j', k') :: rest.
Proof.
  induction l as [|x l IH]; intros i j k o H; simpl in H.
  - inversion H; subst; eauto.
  - destruct (is_res x).
    + destruct (group_go [] 0 l) as [out e]. inversion H; subst; eauto.
    + destruct (ins_length x) as [n|e]; [|discriminate].
      destruct (k + n >? MAX_TEXT_RECORD_SIZE).
      * destruct (group_go [x] n l) as [out e]. inversion H; subst; eauto.
      * exact (IH i (j ++ [x]) (k + n) o H).
Qed.

Lemma group_go_bound l : forall chunk len ch k,
  len <= MAX_TEXT_RECORD_SIZE -> Forall (fun i => within_limit i = true) l ->
  In (ch, k) (fst (group_go chunk len l)) -> k <= MAX_TEXT_RECORD_SIZE.
Proof.
  induction l as [|i l IH]; intros chunk len ch k Hlen Hall Hin; simpl in Hin.
  - destruct chunk; simpl in Hin; [contradiction|].
    destruct Hin as [Hin|[]]. inversion Hin; subst; auto.
  - inversion Hall as [|? ? Hi Hrest]; subst.
    destruct (is_res i).
    + destruct (group_go [] 0 l) as [out e] eqn:E. simpl in Hin.
      assert (Hout : In (ch, k) out -> k <= MAX_TEXT_RECORD_SIZE).
      { intros H. apply (IH [] 0 ch k); [unfold MAX_TEXT_RECORD_SIZE; lia|exact Hrest|].
        rewrite E. exact H. }
      destruct chunk; simpl in Hin; [auto|].
      destruct Hin as [Hin|Hin]; [inversion Hin; subst; auto|auto].
    + unfold within_limit in Hi.
      destruct (ins_length i) as [n|e]; [|simpl in Hin; contradiction].
      apply Z.leb_le in Hi.
      destruct (len + n >? MAX_TEXT_RECORD_SIZE) eqn:Ho.
      * destruct (group_go [i] n l) as [out e] eqn:E. simpl in Hin.
        destruct Hin as [Hin|Hin]; [inversion Hin; subst; auto|].
        apply (IH [i] n ch k Hi Hrest). rewrite E. exact Hin.
      * rewrite Z.gtb_ltb in Ho. apply Z.ltb_ge in Ho.
        exact (IH (chunk ++ [i]) (len + n) ch k Ho Hrest Hin).
Qed.

Lemma label_check_ok i0 :
  forall A (k : () -> result A) r,
  (let* u := match label i0 with
            | Some l => if String.eqb l "" then Ok tt
                        else if re_label l then Ok tt else Err EInvalidLabel
            | None => Ok tt end in k u) = Ok r -> k tt = Ok r.
Proof.
  intros A k r. destruct (label i0) as [l|]; simpl; [|auto].
  destruct (String.eqb l ""); simpl; [auto|]. destruct (re_label l); simpl; [auto|discriminate].
Qed.

Lemma parse_and_determine_size_op i0 i size :
  parse_and_determine_size i0 = Ok (i, size) -> op i = op i0.
Proof.
  unfold parse_and_determine_size. intros H. apply label_check_ok in H.
  unfold require_operand, bind in H.
  destruct (op i0) as [o|[]] eqn:Hop; repeat (case_match; simpl in * ); simplify_eq;
    simpl; congruence.
Qed.

Lemma parse_and_determine_size_byte i0 i size :
  parse_and_determine_size i0 = Ok (i, size) -> op i0 = Directive BYTE ->
  exists v, ctx_value (parsed_ctx i) = Some v /\ (length v <= 30)%nat.
Proof.
  unfold parse_and_determine_size. intros H Hop. apply label_check_ok in H.
  rewrite Hop in H. unfold require_operand, bind in H.
  repeat (case_match; simpl in * ); simplify_eq.
  eexists; split; [reflexivity|].
  match goal with Hn : (_ <=? 29)%nat = true, Hl : length _ = S _ |- _ =>
    apply Nat.leb_le in Hn; rewrite Hl; lia end.
Qed.

Lemma parse_and_determine_size_within_limit i0 i size :
  parse_and_determine_size i0 = Ok (i, size) -> within_limit i = true.
Proof.
  intros H. unfold within_limit, ins_length.
  rewrite (parse_and_determine_size_op _ _ _ H).
  destruct (op i0) as [o|d] eqn:Hop; [reflexivity|].
  destruct d; try reflexivity.
  destruct (parse_and_determine_size_byte _ _ _ H Hop) as [v [Hv Hl]].
  rewrite Hv. apply Z.leb_le. unfold MAX_TEXT_RECORD_SIZE. lia.
Qed.

Lemma parse_and_create_symtab_go_within_limit toks : forall st ins sa lc st' ins' pl,
  Forall (fun i => within_limit i = true) ins ->
  parse_and_create_symtab_go toks st ins sa lc = Ok (st', ins', pl) ->
  Forall (fun i => within_limit i = true) ins'.
Proof.
  induction toks as [|[line token] toks IH]; intros st ins sa lc st' ins' pl Hall H; simpl in H.
  - inversion H; subst; exact Hall.
  - destruct (parse_instruction token lc line) as [i0|]; simpl in H; [|discriminate].
    destruct (parse_and_determine_size i0) as [[i size]|] eqn:Hs; simpl in H; [|discriminate].
    destruct (if is_start i then _ else _) as [[sa' lc']|]; simpl in H; [|discriminate].
    eapply IH; [|exact H].
    apply Forall_app; split; [exact Hall|].
    constructor; [|constructor]. exact (parse_and_determine_size_within_limit _ _ _ Hs).
Qed.

Lemma group_go_covers l : forall chunk len chunks i,
  group_go chunk len l = (chunks, None) ->
  In i chunk \/ (In i l /\ is_res i = false) ->
  exists ch k, In (ch, k) chunks /\ In i ch.
Proof.
  induction l as [|x l IH]; intros chunk len chunks i H Hi; simpl in H.
  - destruct Hi as [Hi|[[] _]].
    destruct chunk as [|y c]; [contradiction|]. inversion H; subst.
    exists (y :: c), len. split; [left; reflexivity|exact Hi].
  - destruct (is_res x) eqn:Hx.
    + destruct (group_go [] 0 l) as [out e] eqn:E. inversion H; subst.
      destruct Hi as [Hi|[[->|Hi] Hr]].
      * destruct chunk as [|y c]; [contradiction|].
        exists (y :: c), len. split; [left; reflexivity|exact Hi].
      * congruence.
      * destruct (IH [] 0 out i E (or_intror (conj Hi Hr))) as [ch [k [Hin Hch]]].
        exists ch, k. split; [|exact Hch]. destruct chunk; [exact Hin|right; exact Hin].
    + destruct (ins_length x) as [n|e]; [|discriminate].
      destruct (len + n >? MAX_TEXT_RECORD_SIZE).
      * destruct (group_go [x] n l) as [out e] eqn:E. inversion H; subst.
        destruct Hi as [Hi|[[->|Hi] Hr]].
        -- exists chunk, len. split; [left; reflexivity|exact Hi].
        -- destruct (IH [i] n out i E (or_introl (or_introl eq_refl))) as [ch [k [Hin Hch]]].
           exists ch, k. split; [right; exact Hin|exact Hch].
        -- destruct (IH [x] n out i E (or_intror (conj Hi Hr))) as [ch [k [Hin Hch]]].
           exists ch, k. split; [right; exact Hin|exact Hch].
      * apply (IH (chunk ++ [x]) (len + n) chunks i H).
        destruct Hi as [Hi|[[->|Hi] Hr]].
        -- left. apply in_or_app. left. exact Hi.
        -- left. apply in_or_app. right. left. reflexivity.
        -- right. split; assumption.
Qed.

Lemma emit_chunk_ok st ch : forall o m i,
  emit_chunk st ch = Ok (o, m) -> In i ch -> exists r, emit_instruction st i = Ok r.
Proof.
  induction ch as [|x ch IH]; intros o m i H Hi; [contradiction|]. simpl in H.
  destruct (emit_instruction st x) as [[o1 m1]|] eqn:E1; simpl in H; [|discriminate].
  destruct (emit_chunk st ch) as [[o2 m2]|] eqn:E2; simpl in H; [|discriminate].
  destruct Hi as [<-|Hi]; [eauto|exact (IH o2 m2 i eq_refl Hi)].
Qed.

Lemma bind_ok {A B} (r : result A) (k : A -> result B) v :
  bind r k = Ok v -> exists a, r = Ok a /\ k a = Ok v.
Proof. destruct r as [a|e]; simpl; [eauto|discriminate]. Qed.

Lemma emit_chunks_ok st chunks : forall o m ch k i,
  emit_chunks st chunks = Ok (o, m) -> In (ch, k) chunks -> In i ch ->
  exists r, emit_instruction st i = Ok r.
Proof.
  induction chunks as [|[c len] chunks IH]; intros o m ch k i H Hin Hi; [contradiction|].
  cbn [emit_chunks] in H. destruct c as [|x c]; [discriminate|].
  apply bind_ok in H as [t [_ H]].
  apply bind_ok in H as [[o1 m1] [E1 H]].
  apply bind_ok in H as [[o2 m2] [E2 H]].
  destruct Hin as [Hin|Hin].
  - inversion Hin; subst. exact (emit_chunk_ok _ _ _ _ _ E1 Hi).
  - exact (IH o2 m2 ch k i E2 Hin Hi).
Qed.

Lemma emit_instruction_undefined st i o s :
  op i = OpCode o -> ctx_symbol (parsed_ctx i) = Some s -> st !! s = None ->
  emit_instruction st i = Err EUndefinedSymbol.
Proof.
  intros Hop Hs Hl. unfold emit_instruction. rewrite Hop, Hs, Hl. reflexivity.
Qed.

(** ** Labels *)

Lemma tokenize_line_nonempty line toks :
  tokenize_line line = Some toks -> forall t, In t toks -> t <> "".
Proof.
  unfold tokenize_line. destruct (chars line) as [|c l]; [discriminate|].
  destruct (startswith_l _ _); [discriminate|].
  intros H. injection H as <-. intros t Hin.
  apply in_map_iff in Hin as [x [<- Hx]].
  apply filter_In in Hx as [_ Hx]. destruct x; [discriminate|]. discriminate.
Qed.

Lemma parse_instruction_label toks locctr n i :
  parse_instruction toks locctr n = Ok i ->
  label i = None \/ exists x, label i = Some x /\ In x toks.
Proof.
  unfold parse_instruction.
  destruct toks as [|a [|b [|c [|d r]]]]; try discriminate.
  - destruct (determine_instruction a); simpl; intros H; [|discriminate].
    injection H as <-. left. reflexivity.
  - destruct (determine_instruction a).
    + intros H. injection H as <-. left. reflexivity.
    + destruct (determine_instruction b); simpl; intros H; [|discriminate].
      injection H as <-. right. exists a. split; [reflexivity|left; reflexivity].
  - destruct (determine_instruction b); simpl; intros H; [|discriminate].
    injection H as <-. right. exists a. split; [reflexivity|left; reflexivity].
Qed.

Lemma parse_word_operand_not_label s : parse_word_operand s <> Err EInvalidLabel.
Proof.
  unfold parse_word_operand, UInt24_from_int, Int24_from_int, from_buffer.
  repeat (case_match; simpl in * ); discriminate.
Qed.

Lemma parse_byte_operand_not_label s : parse_byte_operand s <> Err EInvalidLabel.
Proof.
  unfold parse_byte_operand, fromhex2, encode_ascii.
  repeat (case_match; simpl in * ); discriminate.
Qed.

(** ** Comment lines *)

Lemma is_space_not_hash c : is_space c = true -> ascii_eqb c "#"%char = false.
Proof.
  intros H. destruct (ascii_eqb c "#"%char) eqn:E; [|reflexivity].
  apply Ascii.eqb_eq in E. subst. discriminate.
Qed.

Lemma is_space_not_hash' c : is_space c = true -> ascii_eqb "#"%char c = false.
Proof.
  intros H. unfold ascii_eqb. rewrite Ascii.eqb_sym. exact (is_space_not_hash c H).
Qed.

Lemma lstrip_l_spaces ws : Forall (fun c => is_space c = true) ws -> lstrip_l ws = [].
Proof.
  induction 1 as [|c ws Hc _ IH]; simpl; [reflexivity|]. rewrite Hc. exact IH.
Qed.

Lemma lstrip_l_stop a c b :
  is_space c = false -> exists p, lstrip_l (a ++ c :: b) = p ++ c :: b.
Proof.
  intros Hc. induction a as [|x a IH]; simpl.
  - rewrite Hc. exists []. reflexivity.
  - destruct (is_space x); [exact IH|]. exists (x :: a). reflexivity.
Qed.

Lemma before_hash_spaces ws rest :
  Forall (fun c => is_space c = true) ws -> before_hash (ws ++ "#"%char :: rest) = ws.
Proof.
  induction 1 as [|c ws Hc _ IH]; simpl; [reflexivity|].
  rewrite (is_space_not_hash c Hc), IH. reflexivity.
Qed.

Lemma before_hash_only_spaces ws :
  Forall (fun c => is_space c = true) ws -> before_hash ws = ws.
Proof.
  induction 1 as [|c ws Hc _ IH]; simpl; [reflexivity|].
  rewrite (is_space_not_hash c Hc), IH. reflexivity.
Qed.

Lemma tokenize_line_spaces_hash ws rest :
  ws <> [] -> Forall (fun c => is_space c = true) ws ->
  tokenize_line (str (ws ++ "#"%char :: rest)) = Some [].
Proof.
  intros Hne Hws. unfold tokenize_line, chars, str.
  rewrite list_ascii_of_string_of_list_ascii.
  destruct ws as [|w ws']; [congruence|].
  assert (Hr : startswith_l (rstrip_l ((w :: ws') ++ "#"%char :: rest)) ["#"%char] = false).
  { unfold rstrip_l.
    replace (rev ((w :: ws') ++ "#"%char :: rest))
      with (rev rest ++ "#"%char :: (rev ws' ++ [w]))
      by (rewrite rev_app_distr; simpl rev; rewrite <- app_assoc; reflexivity).
    destruct (lstrip_l_stop (rev rest) "#"%char (rev ws' ++ [w]) eq_refl) as [p Hp].
    rewrite Hp, rev_app_distr.
    replace (rev ("#"%char :: rev ws' ++ [w])) with (w :: ws' ++ ["#"%char])
      by (simpl rev; rewrite rev_app_distr, rev_involutive; reflexivity).
    cbn [startswith_l app].
    inversion Hws; subst. rewrite (is_space_not_hash' w ltac:(assumption)). reflexivity. }
  rewrite Hr. cbn [app].
  change (w :: ws' ++ "#"%char :: rest) with ((w :: ws') ++ "#"%char :: rest).
  rewrite (before_hash_spaces _ _ Hws).
  unfold split_max. rewrite (lstrip_l_spaces _ Hws). reflexivity.
Qed.

Lemma tokenize_line_spaces ws :
  ws <> [] -> Forall (fun c => is_space c = true) ws -> tokenize_line (str ws) = Some [].
Proof.
  intros Hne Hws. unfold tokenize_line, chars, str.
  rewrite list_ascii_of_string_of_list_ascii.
  assert (Hr : rstrip_l ws = []).
  { unfold rstrip_l. rewrite lstrip_l_spaces; [reflexivity|]. apply Forall_rev. exact Hws. }
  destruct ws as [|w ws']; [congruence|].
  rewrite Hr. simpl startswith_l. cbv iota.
  rewrite (before_hash_only_spaces _ Hws).
  unfold split_max. rewrite (lstrip_l_spaces _ Hws). reflexivity.
Qed.

Lemma parse_and_create_symtab_go_empty_token toks : forall st ins sa lc n r,
  In (n, []) toks -> parse_and_create_symtab_go toks st ins sa lc <> Ok r.
Proof.
  induction toks as [|[line token] toks IH]; intros st ins sa lc n r Hin; [contradiction|].
  simpl. destruct Hin as [Heq|Hin].
  - injection Heq as -> ->. simpl. discriminate.
  - destruct (parse_instruction token lc line) as [i0|]; simpl; [|discriminate].
    destruct (parse_and_determine_size i0) as [[i size]|]; simpl; [|discriminate].
    destruct (if is_start i then _ else _) as [[sa' lc']|]; simpl; [|discriminate].
    exact (IH _ _ _ _ n r Hin).
Qed.

(* ------------------------------------------------------------------ *)
(** ** Assembler claims *)

(** C3: a WORD operand of 65536 is stored as the bytes 0x01 0x00 0x00,
    most significant byte first (UInt24 keeps [byte1] = bits 16..23 in
    its first field), not 0x00 0x00 0x01; 70000000 is rejected. *)
Theorem word_operand_high_byte_first :
  parse_word_operand "65536" = Ok [1; 0; 0] /\
  parse_word_operand "70000000" = Err EInvalidOperand /\
  assemble_program word_program =
    Ok [HeaderObj [80; 0; 0; 0; 0; 0] [0; 16; 0] [0; 0; 3];
        TextObj [0; 16; 0] 3; ValueObj [1; 0; 0]; EndObj [0; 0; 0]] /\
  assemble_program word_program_too_large = Err EInvalidOperand.
Proof. vm_compute. repeat split. Qed.

(** C6: the text-record grouping never yields a chunk of more than 30
    bytes when every instruction's object code fits in 30 bytes, which
    holds for every instruction the parser produces; a RESB/RESW directive
    closes the chunk before it (the chunks are those of the part before it
    followed by those of the part after it); and an instruction that would
    push a chunk past 30 bytes closes that chunk and starts the next one. *)
Theorem text_record_grouping :
  (forall l ch k, Forall (fun i => within_limit i = true) l ->
     In (ch, k) (fst (group_instructions_for_text_record l)) ->
     k <= MAX_TEXT_RECORD_SIZE) /\
  (forall toks st instrs pl, parse_and_create_symtab toks = Ok (st, instrs, pl) ->
     Forall (fun i => within_limit i = true) instrs) /\
  (forall pre r post, is_res r = true ->
     group_instructions_for_text_record (pre ++ r :: post) =
     match group_instructions_for_text_record pre with
     | (o1, Some e) => (o1, Some e)
     | (o1, None) =>
         let '(o2, e2) := group_instructions_for_text_record post in (o1 ++ o2, e2)
     end) /\
  (forall pre i post m chunks c n out,
     group_instructions_for_text_record pre = (chunks ++ [(c, n)], None) ->
     is_res i = false -> ins_length i = Ok m -> m <= MAX_TEXT_RECORD_SIZE ->
     n + m > MAX_TEXT_RECORD_SIZE ->
     group_instructions_for_text_record (pre ++ i :: post) = (out, None) ->
     exists j k rest, out = chunks ++ (c, n) :: (i :: j, k) :: rest).
Proof.
  unfold group_instructions_for_text_record. split; [|split; [|split]].
  - intros l ch k Hall Hin. apply (group_go_bound l [] 0 ch k); [|exact Hall|exact Hin].
    unfold MAX_TEXT_RECORD_SIZE. lia.
  - intros toks st instrs pl H.
    exact (parse_and_create_symtab_go_within_limit toks _ [] 0 0 st instrs pl (List.Forall_nil _) H).
  - intros pre r post Hr. rewrite group_go_app, (group_go_state [] 0 pre).
    destruct (group_state [] 0 pre) as [[o1 e1] [c' n']].
    destruct e1 as [e|]; [reflexivity|].
    simpl. rewrite Hr. destruct (group_go [] 0 post) as [o2 e2].
    destruct c'; simpl; rewrite ?app_nil_r, <- ?app_assoc; reflexivity.
  - intros pre i post m chunks c n out Hpre Hi Hm Hm30 Hover Hout.
    rewrite group_go_state in Hpre.
    rewrite group_go_app in Hout.
    destruct (group_state [] 0 pre) as [[o1 e1] [c' n']] eqn:E.
    destruct e1 as [e|]; [discriminate|]. injection Hpre as Hpre.
    simpl in Hout. rewrite Hi, Hm in Hout.
    destruct c' as [|x c''].
    + assert (n' = 0) as -> by exact (group_state_empty_len pre [] 0 o1 [] n' E (fun _ => eq_refl) eq_refl).
      simpl in Hpre. rewrite app_nil_r in Hpre. subst o1.
      assert (Hno : (0 + m >? MAX_TEXT_RECORD_SIZE) = false).
      { rewrite Z.gtb_ltb. apply Z.ltb_ge. lia. }
      rewrite Hno in Hout. simpl in Hout.
      destruct (group_go [i] (0 + m) post) as [o2 e2] eqn:G.
      injection Hout as <- ->.
      destruct (group_go_head post i [] (0 + m) o2 G) as [j [k [rest ->]]].
      exists j, k, rest. rewrite <- app_assoc. reflexivity.
    + simpl in Hpre. apply app_inj_tail in Hpre as [-> Hc]. injection Hc as <- <-.
      assert (Hyes : (n' + m >? MAX_TEXT_RECORD_SIZE) = true).
      { rewrite Z.gtb_ltb. apply Z.ltb_lt. lia. }
      rewrite Hyes in Hout.
      destruct (group_go [i] m post) as [o2 e2] eqn:G.
      injection Hout as <- ->.
      destruct (group_go_head post i [] m o2 G) as [j [k [rest ->]]].
      exists j, k, rest. reflexivity.
Qed.

Lemma text_record_grouping_witness :
  Forall (fun i => within_limit i = true) [rsub_instruction; rsub_instruction] /\
  In ([rsub_instruction; rsub_instruction], 6)
     (fst (group_instructions_for_text_record [rsub_instruction; rsub_instruction])) /\
  6 <= MAX_TEXT_RECORD_SIZE.
Proof.
  set (i := rsub_instruction). assert (Hall : Forall (fun i => within_limit i = true) [i; i]).
  { repeat constructor. }
  assert (Hin : In ([i; i], 6) (fst (group_instructions_for_text_record [i; i]))).
  { left. reflexivity. }
  split; [exact Hall|split; [exact Hin|]].
  exact (proj1 text_record_grouping [i; i] [i; i] 6 Hall Hin).
Defined.

(** C7: a comment line whose '#' follows leading whitespace, or a line of
    whitespace only, is not dropped by [tokenize] (the test uses [rstrip]):
    it yields an empty token list, which [parse_instruction] rejects, so
    the whole program fails to assemble. *)
Theorem indented_comment_line_rejected :
  (forall ws rest, ws <> [] -> Forall (fun c => is_space c = true) ws ->
     tokenize_line (str (ws ++ "#"%char :: rest)) = Some []) /\
  (forall ws, ws <> [] -> Forall (fun c => is_space c = true) ws ->
     tokenize_line (str ws) = Some []) /\
  (forall toks n r, In (n, []) toks -> parse_and_create_symtab toks <> Ok r) /\
  assemble_program indented_comment_program = Err EInvalidFormat /\
  is_ok (assemble_program program_without_comment) = true.
Proof.
  split; [exact tokenize_line_spaces_hash|].
  split; [exact tokenize_line_spaces|].
  split; [intros toks n r Hin; exact (parse_and_create_symtab_go_empty_token toks _ _ _ _ n r Hin)|].
  vm_compute. split; reflexivity.
Qed.

Lemma indented_comment_line_rejected_witness :
  tokenize_line (str ([" "%char; " "%char] ++ "#"%char :: ["c"%char])) = Some [] /\
  tokenize_line (str [" "%char]) = Some [] /\
  parse_and_create_symtab [(1, [])] <> Ok (∅, [], 0).
Proof.
  split; [|split].
  - apply (proj1 indented_comment_line_rejected); [discriminate|repeat constructor].
  - apply (proj1 (proj2 indented_comment_line_rejected)); [discriminate|repeat constructor].
  - apply (proj1 (proj2 (proj2 indented_comment_line_rejected)) _ 1). left. reflexivity.
Defined.

(** C8 (counterexample): with the label FIRST at address 0, the operand
    FIRST is encoded with address 0 although the instruction has an
    operand. *)
Lemma label_at_zero_encodes_address_zero :
  assemble_program label_at_zero_program =
    Ok [HeaderObj [80; 0; 0; 0; 0; 0] [0; 0; 0] [0; 0; 3];
        TextObj [0; 0; 0] 3; CodeObj (SIC_create LDA 0 false);
        ModificationObj [0; 0; 1] 2; EndObj [0; 0; 0]] /\
  SIC_address (SIC_create LDA 0 false) = 0.
Proof. vm_compute. split; reflexivity. Qed.

(** C8 (amended): an opcode instruction whose symbol is not in the symbol
    table makes emission fail with the undefined-symbol error, so a
    successful [create_object_program] has every symbol of its opcode
    instructions defined; a defined symbol is encoded with its table
    address (and a Modification record at [location + 1]); an instruction
    without a symbol is encoded with address 0. *)
Theorem undefined_symbol_fails_emission :
  (forall st i o s, op i = OpCode o -> ctx_symbol (parsed_ctx i) = Some s ->
     st !! s = None -> emit_instruction st i = Err EUndefinedSymbol) /\
  (forall st instrs pl out, create_object_program st instrs pl = Ok out ->
     forall i o s, In i (drop 1 (removelast instrs)) -> op i = OpCode o ->
     ctx_symbol (parsed_ctx i) = Some s -> is_Some (st !! s)) /\
  (forall st i o s a, op i = OpCode o -> ctx_symbol (parsed_ctx i) = Some s ->
     st !! s = Some a -> 0 <= location i + 1 <= 16777215 ->
     emit_instruction st i =
       Ok ([CodeObj (SIC_create o a (default false (ctx_indexed (parsed_ctx i))))],
           [ModificationObj (int24_bytes (location i + 1)) 2])) /\
  (forall st i o, op i = OpCode o -> ctx_symbol (parsed_ctx i) = None ->
     emit_instruction st i =
       Ok ([CodeObj (SIC_create o 0 (default false (ctx_indexed (parsed_ctx i))))], [])) /\
  assemble_program undefined_symbol_program = Err EUndefinedSymbol.
Proof.
  split; [exact emit_instruction_undefined|].
  split; [|split; [|split]].
  - intros st instrs pl out H i o s Hin Hop Hs.
    unfold create_object_program in H.
    destruct (length instrs <? 3)%nat; [discriminate|].
    destruct (head instrs) as [start|]; [|discriminate].
    destruct (last instrs) as [end_|]; [|discriminate].
    destruct (is_start start && bool_decide (op end_ = Directive END)); [|discriminate].
    apply bind_ok in H as [sa [_ H]].
    apply bind_ok in H as [pn [_ H]].
    apply bind_ok in H as [ea [_ H]].
    apply bind_ok in H as [nm [_ H]].
    apply bind_ok in H as [hd [_ H]].
    destruct (group_instructions_for_text_record (drop 1 (removelast instrs)))
      as [chunks raised] eqn:G.
    apply bind_ok in H as [[objs mods] [Hem H]].
    apply bind_ok in H as [u [Hr _]].
    destruct raised; [discriminate|].
    assert (Hres : is_res i = false) by (unfold is_res; rewrite Hop; reflexivity).
    destruct (group_go_covers _ [] 0 chunks i G (or_intror (conj Hin Hres))) as [ch [k [Hck Hich]]].
    destruct (emit_chunks_ok st chunks objs mods ch k i Hem Hck Hich) as [r Hr'].
    destruct (st !! s) eqn:Hl; [eexists; reflexivity|].
    rewrite (emit_instruction_undefined st i o s Hop Hs Hl) in Hr'. discriminate.
  - intros st i o s a Hop Hs Hl Hrange.
    unfold emit_instruction, ModificationRecord_create, UInt24_from_int.
    rewrite Hop, Hs, Hl.
    assert (Hb : (0 <=? location i + 1) && (location i + 1 <=? 16777215) = true).
    { apply andb_true_iff. split; apply Z.leb_le; lia. }
    rewrite Hb. reflexivity.
  - intros st i o Hop Hs. unfold emit_instruction. rewrite Hop, Hs. reflexivity.
  - vm_compute. reflexivity.
Qed.

Lemma undefined_symbol_fails_emission_witness :
  op j_nowhere_instruction = OpCode J /\
  ctx_symbol (parsed_ctx j_nowhere_instruction) = Some "NOWHR" /\
  (∅ : SYMTAB) !! "NOWHR" = None /\
  emit_instruction ∅ j_nowhere_instruction = Err EUndefinedSymbol.
Proof.
  set (i := j_nowhere_instruction). split; [reflexivity|split; [reflexivity|split; [reflexivity|]]].
  apply (proj1 undefined_symbol_fails_emission ∅ i J "NOWHR"); reflexivity.
Defined.

(** C9: every label the tokenizer and [parse_instruction] produce is a
    non-empty string; a non-empty label that [re.match(r"^[A-Z]{1,6}$", _)]
    rejects makes [parse_and_determine_size] fail with the invalid-label
    error, whatever the operation; a label it accepts never causes that
    error. *)
Theorem label_check_matches_pattern :
  (forall line toks locctr n i, tokenize_line line = Some toks ->
     parse_instruction toks locctr n = Ok i -> label i <> Some "") /\
  (forall i s, label i = Some s -> s <> "" -> re_label s = false ->
     parse_and_determine_size i = Err EInvalidLabel) /\
  (forall i s, label i = Some s -> re_label s = true ->
     parse_and_determine_size i <> Err EInvalidLabel).
Proof.
  split; [|split].
  - intros line toks locctr n i Ht Hp.
    destruct (parse_instruction_label _ _ _ _ Hp) as [-> | [x [-> Hx]]]; [discriminate|].
    intros Heq. injection Heq as ->.
    exact (tokenize_line_nonempty line toks Ht "" Hx eq_refl).
  - intros i s Hl Hne Hre. unfold parse_and_determine_size. rewrite Hl, Hre.
    destruct (String.eqb s "") eqn:E; [apply String.eqb_eq in E; contradiction|].
    reflexivity.
  - intros i s Hl Hre. unfold parse_and_determine_size. rewrite Hl, Hre.
    destruct (String.eqb s ""); simpl;
    unfold bind, require_operand; repeat (case_match; simpl in * ); intros Heq;
    try congruence;
    match goal with
    | Hw : parse_word_operand _ = Err ?e, He : Err ?e = Err EInvalidLabel |- _ =>
        injection He as ->; exact (parse_word_operand_not_label _ Hw)
    | Hb : parse_byte_operand _ = Err ?e, He : Err ?e = Err EInvalidLabel |- _ =>
        injection He as ->; exact (parse_byte_operand_not_label _ Hb)
    end.
Qed.

Lemma label_check_matches_pattern_witness :
  label lowercase_label_instruction = Some "abc" /\ "abc" <> "" /\
  re_label "abc" = false /\
  parse_and_determine_size lowercase_label_instruction = Err EInvalidLabel.
Proof.
  set (i := lowercase_label_instruction). split; [reflexivity|split; [discriminate|split; [reflexivity|]]].
  apply (proj1 (proj2 label_check_matches_pattern) i "abc"); [reflexivity|discriminate|reflexivity].
Defined.

(* ================================================================== *)
(** * Further properties of the code *)

Lemma int24_bytes_mod v : int24_bytes v = int24_bytes (v mod 2 ^ 24).
Proof.
  unfold int24_bytes. change 255 with (Z.ones 8).
  f_equal; [|f_equal; [|f_equal]];
  apply Z.bits_inj'; intros n Hn;
  rewrite ?Z.land_spec, ?Z.shiftr_spec, ?Z.testbit_ones_nonneg by lia;
  destruct (Z.ltb_spec n 8); rewrite ?andb_false_r; try reflexivity;
  rewrite Z.mod_pow2_bits_low by lia; reflexivity.
Qed.

Lemma uint24_to_int_bytes v : UInt24_to_int (int24_bytes v) = v mod 2 ^ 24.
Proof.
  rewrite int24_bytes_mod. apply uint24_roundtrip.
  pose proof (Z.mod_pos_bound v (2 ^ 24) ltac:(lia)). change (2 ^ 24) with 16777216 in *. lia.
Qed.

Lemma uint24_to_int_value b1 b2 b3 :
  0 <= b1 < 256 -> 0 <= b2 < 256 -> 0 <= b3 < 256 ->
  UInt24_to_int [b1; b2; b3] = b1 * 65536 + b2 * 256 + b3.
Proof.
  intros H1 H2 H3. unfold UInt24_to_int. rewrite !Z.shiftl_mul_pow2 by lia.
  rewrite (lor_low b1 (b2 * 2 ^ 8) 16)
    by (change (2 ^ 16) with 65536; change (2 ^ 8) with 256; lia).
  replace (b1 * 2 ^ 16 + b2 * 2 ^ 8) with ((b1 * 256 + b2) * 2 ^ 8)
    by (change (2 ^ 16) with 65536; change (2 ^ 8) with 256; lia).
  rewrite lor_low by (change (2 ^ 8) with 256; lia).
  change (2 ^ 8) with 256. lia.
Qed.

Lemma int24_bytes_value b1 b2 b3 :
  0 <= b1 < 256 -> 0 <= b2 < 256 -> 0 <= b3 < 256 ->
  int24_bytes (b1 * 65536 + b2 * 256 + b3) = [b1; b2; b3].
Proof.
  intros H1 H2 H3. unfold int24_bytes.
  rewrite !land_255, !Z.shiftr_div_pow2 by lia.
  change (2 ^ 16) with 65536. change (2 ^ 8) with 256.
  assert (E1 : (b1 * 65536 + b2 * 256 + b3) / 65536 = b1)
    by (symmetry; apply (Z.div_unique _ _ _ (b2 * 256 + b3)); lia).
  assert (E2 : (b1 * 65536 + b2 * 256 + b3) / 256 = b1 * 256 + b2)
    by (symmetry; apply (Z.div_unique _ _ _ b3); lia).
  assert (E3 : (b1 * 256 + b2) mod 256 = b2)
    by (symmetry; apply (Z.mod_unique _ _ b1); lia).
  assert (E4 : (b1 * 65536 + b2 * 256 + b3) mod 256 = b3)
    by (symmetry; apply (Z.mod_unique _ _ (b1 * 256 + b2)); lia).
  rewrite E1, E2, E3, E4, Z.mod_small by lia. reflexivity.
Qed.

Lemma c_char_array_value_padded name k :
  Forall (fun x => x <> 0) name ->
  c_char_array_value (name ++ replicate k 0) = name.
Proof.
  induction 1 as [|x name Hx _ IH]; simpl.
  - destruct k; reflexivity.
  - rewrite IH. destruct (Z.eqb_spec x 0); [contradiction | reflexivity].
Qed.

Lemma int24_bytes_shape v : exists a b c, int24_bytes v = [a; b; c].
Proof. unfold int24_bytes. eauto. Qed.

Lemma parse_record_ok buf r rest :
  parse_record buf = Ok (r, rest) ->
  exists pre, buf = pre ++ rest /\ (4 <= length pre <= 13)%nat.
Proof.
  unfold parse_record, from_buffer, bind.
  intros H. repeat case_match; simplify_eq;
  eexists; (split; [symmetry; apply take_drop|]);
  rewrite length_take; unfold header_size, text_size, end_size, mod_size in *;
  match goal with E : (_ <=? _)%nat = true |- _ => apply Nat.leb_le in E end; lia.
Qed.

(** [X1] [UInt24.from_int] succeeds exactly on [0 .. 0xFFFFFF], raising
    [ValueError] elsewhere, and [to_int] gives the value back. *)
Theorem UInt24_from_int_to_int v :
  match UInt24_from_int v with
  | Ok b => 0 <= v <= 16777215 /\ UInt24_to_int b = v
  | Err e => e = ERange /\ (v < 0 \/ 16777215 < v)
  end.
Proof.
  unfold UInt24_from_int.
  destruct (Z.leb_spec 0 v), (Z.leb_spec v 16777215); simpl;
    try (split; [reflexivity|lia]).
  split; [lia|]. apply uint24_roundtrip. lia.
Qed.

(** [X2] [Int24.from_int] succeeds exactly on [-0x800000 .. 0x7FFFFF],
    raising [ValueError] elsewhere, and [Int24.to_int] gives the value
    back (two's complement). *)
Theorem Int24_from_int_to_int v :
  match Int24_from_int v with
  | Ok b => -8388608 <= v <= 8388607 /\ Int24_to_int b = v
  | Err e => e = ERange /\ (v < -8388608 \/ 8388607 < v)
  end.
Proof.
  unfold Int24_from_int.
  destruct (Z.leb_spec (-8388608) v), (Z.leb_spec v 8388607); simpl;
    try (split; [reflexivity|lia]).
  split; [lia|]. unfold Int24_to_int. rewrite uint24_to_int_bytes.
  change (2 ^ 24) with 16777216.
  destruct (Z_lt_le_dec v 0).
  - rewrite <- (Z.mod_unique v 16777216 (-1) (v + 16777216)) by lia.
    rewrite (proj2 (Z.leb_le _ _)) by lia. lia.
  - rewrite Z.mod_small by lia. rewrite (proj2 (Z.leb_gt _ _)) by lia. reflexivity.
Qed.

(** [X3] For any three bytes, [UInt24.to_int] followed by
    [UInt24.from_int] gives the same three bytes back. *)
Theorem UInt24_to_int_from_int b1 b2 b3 :
  0 <= b1 < 256 -> 0 <= b2 < 256 -> 0 <= b3 < 256 ->
  UInt24_from_int (UInt24_to_int [b1; b2; b3]) = Ok [b1; b2; b3].
Proof.
  intros H1 H2 H3. rewrite uint24_to_int_value by lia.
  unfold UInt24_from_int.
  rewrite (proj2 (Z.leb_le 0 _)), (proj2 (Z.leb_le _ 16777215)) by lia.
  simpl. rewrite int24_bytes_value by lia. reflexivity.
Qed.

Lemma UInt24_to_int_from_int_witness :
  UInt24_from_int (UInt24_to_int [18; 52; 86]) = Ok [18; 52; 86].
Proof. apply UInt24_to_int_from_int; lia. Defined.

(** [X4] [bytes(code)] of an instruction word, read back with
    [SICFormatObjectCode.from_buffer] (extra bytes after it ignored), gives
    the opcode that [code_lut] maps to the same [OpcodeTable] member and
    the 16-bit [ia] field [address | 0x8000 if indexed]. *)
Theorem SIC_bytes_decode op address indexed rest :
  exists c,
    SIC_from_bytes (SIC_bytes (SIC_create op address indexed) ++ rest) = Ok c /\
    code_lut (sic_opcode c) = Some op /\
    sic_ia c = Z.lor address (if indexed then 32768 else 0) mod 2 ^ 16.
Proof.
  eexists. split; [|split].
  - unfold SIC_from_bytes, SIC_bytes, SIC_create, from_buffer. simpl. reflexivity.
  - simpl. destruct op; reflexivity.
  - simpl. apply bytes16. unfold c_uint. apply Z.mod_pos_bound. lia.
Qed.

(** [X5] A Header record made by [HeaderRecord.create] and written with
    [bytes(record)] is read back by [parse_record] as a Header record
    whose name field reads as the original name, whose start and length
    fields read as the original values, and it consumes exactly the
    record's bytes. *)
Theorem header_record_roundtrip name sa pl r rest :
  HeaderRecord_create name sa pl = Ok r ->
  Forall (fun x => x <> 0) name ->
  exists n s p,
    parse_record (record_bytes r ++ rest) = Ok (HeaderRecord n s p, rest) /\
    c_char_array_value n = name /\ UInt24_to_int s = sa /\ UInt24_to_int p = pl.
Proof.
  unfold HeaderRecord_create. intros H Hn.
  destruct (Nat.leb_spec (length name) 6); [|discriminate].
  pose proof (UInt24_from_int_to_int sa) as Hs. pose proof (UInt24_from_int_to_int pl) as Hp.
  destruct (UInt24_from_int sa) as [s|] eqn:Es; [|discriminate]. simpl in H.
  destruct (UInt24_from_int pl) as [p|] eqn:Ep; [|discriminate]. simpl in H.
  injection H as <-. exists (name ++ replicate (6 - length name) 0), s, p.
  split; [|split; [apply c_char_array_value_padded; exact Hn|tauto]].
  assert (Hl : length (name ++ replicate (6 - length name) 0) = 6%nat)
    by (rewrite length_app, length_replicate; lia).
  unfold UInt24_from_int in Es, Ep.
  destruct (_ && _) in Es; [|discriminate]. destruct (_ && _) in Ep; [|discriminate].
  injection Es as <-. injection Ep as <-.
  destruct (int24_bytes_shape sa) as (a1 & a2 & a3 & ->).
  destruct (int24_bytes_shape pl) as (c1 & c2 & c3 & ->).
  destruct (name ++ replicate (6 - length name) 0) as
    [|n1 [|n2 [|n3 [|n4 [|n5 [|n6 [|]]]]]]]; try discriminate.
  reflexivity.
Qed.

Lemma header_record_roundtrip_witness :
  HeaderRecord_create record_name 4096 17 =
    Ok (HeaderObj [84; 69; 83; 84; 0; 0] [0; 16; 0] [0; 0; 17]) /\
  Forall (fun x => x <> 0) record_name /\
  exists n s p,
    parse_record (record_bytes (HeaderObj [84; 69; 83; 84; 0; 0] [0; 16; 0] [0; 0; 17])
                  ++ [1]) = Ok (HeaderRecord n s p, [1]) /\
    c_char_array_value n = record_name /\ UInt24_to_int s = 4096 /\ UInt24_to_int p = 17.
Proof.
  assert (H1 : HeaderRecord_create record_name 4096 17 =
    Ok (HeaderObj [84; 69; 83; 84; 0; 0] [0; 16; 0] [0; 0; 17])) by reflexivity.
  assert (H2 : Forall (fun x => x <> 0) record_name)
    by (unfold record_name; repeat constructor; discriminate).
  split; [exact H1|split; [exact H2|]].
  exact (header_record_roundtrip record_name 4096 17 _ [1] H1 H2).
Defined.

(** [X6] Text, End and Modification records made by their [create]
    methods and written with [bytes(record)] are read back by
    [parse_record] as the same kind of record with the same field values
    (a length byte keeps its value modulo 256), consuming exactly the
    record's bytes. *)
Theorem small_records_roundtrip sa len rest :
  (forall r, TextRecord_create sa len = Ok r ->
     exists s, parse_record (record_bytes r ++ rest) = Ok (TextRecord s (len mod 256), rest)
               /\ UInt24_to_int s = sa) /\
  (forall r, ModificationRecord_create sa len = Ok r ->
     exists s, parse_record (record_bytes r ++ rest)
                 = Ok (ModificationRecord s (len mod 256), rest)
               /\ UInt24_to_int s = sa) /\
  (forall r, EndRecord_create sa = Ok r ->
     exists s, parse_record (record_bytes r ++ rest) = Ok (EndRecord s, rest)
               /\ UInt24_to_int s = sa).
Proof.
  unfold TextRecord_create, ModificationRecord_create, EndRecord_create.
  pose proof (UInt24_from_int_to_int sa) as Hs.
  split; [|split]; intros r H;
  destruct (UInt24_from_int sa) as [s|] eqn:E; try discriminate; simpl in H;
  injection H as <-; exists s; split; try tauto;
  unfold UInt24_from_int in E; destruct (_ && _); try discriminate;
  injection E as <-; destruct (int24_bytes_shape sa) as (a1 & a2 & a3 & ->);
  reflexivity.
Qed.

Lemma small_records_roundtrip_witness :
  TextRecord_create 4096 17 = Ok (TextObj [0; 16; 0] 17) /\
  exists s, parse_record (record_bytes (TextObj [0; 16; 0] 17) ++ [2])
              = Ok (TextRecord s (17 mod 256), [2]) /\ UInt24_to_int s = 4096.
Proof.
  assert (H : TextRecord_create 4096 17 = Ok (TextObj [0; 16; 0] 17)) by reflexivity.
  split; [exact H|exact (proj1 (small_records_roundtrip 4096 17 [2]) _ H)].
Defined.

Lemma parse_record_unknown_tag buffer :
  (forall t, head buffer = Some t -> t < 0 \/ 3 < t) ->
  parse_record buffer = Err EUnknownRecord.
Proof.
  intros H. unfold parse_record.
  destruct buffer as [|t rest]; [reflexivity|].
  specialize (H t eq_refl). simpl.
  destruct t as [|p|p]; try reflexivity; [lia|].
  destruct p as [ [ p | p | ] | [ p | p | ] | ]; try reflexivity; lia.
Qed.

Lemma parse_record_truncated t rest :
  0 <= t <= 3 ->
  (length (t :: rest) < if (t =? 0)%Z then 13 else if (t =? 2)%Z then 4 else 5)%nat <->
  parse_record (t :: rest) = Err EBufferTooSmall.
Proof.
  intros Ht.
  assert (t = 0 \/ t = 1 \/ t = 2 \/ t = 3) as [ -> | [ -> | [ -> | -> ] ] ] by lia;
  unfold parse_record, from_buffer, bind; simpl take; cbv iota beta;
  unfold header_size, text_size, end_size, mod_size; simpl Z.eqb; cbv iota;
  (match goal with |- context [Nat.leb ?a ?b] => destruct (Nat.leb_spec a b) end;
   split; intros; simpl in *; first [reflexivity | discriminate | lia]).
Qed.

(** [X7] [parse_record] raises [ValueError("Unknown record type")] on an
    empty buffer or one whose first byte is not a record tag (0 to 3); on
    a valid tag it raises [ValueError] from [from_buffer_copy] exactly when
    the buffer is shorter than the record's fixed size (13 bytes for a
    Header, 4 for End, 5 for Text and Modification). *)
Theorem parse_record_errors buffer :
  ((forall t, head buffer = Some t -> t < 0 \/ 3 < t) ->
   parse_record buffer = Err EUnknownRecord) /\
  (forall t rest, buffer = t :: rest -> 0 <= t <= 3 ->
   ((length buffer < if (t =? 0)%Z then 13 else if (t =? 2)%Z then 4 else 5)%nat <->
    parse_record buffer = Err EBufferTooSmall)).
Proof.
  split; [apply parse_record_unknown_tag|].
  intros t rest -> Ht. apply parse_record_truncated. exact Ht.
Qed.

Lemma parse_record_errors_witness :
  parse_record [7; 0; 0; 0] = Err EUnknownRecord /\
  parse_record [1; 0; 16] = Err EBufferTooSmall.
Proof.
  split.
  - apply (proj1 (parse_record_errors [7; 0; 0; 0])).
    intros t Ht. injection Ht as <-. lia.
  - apply (proj1 (proj2 (parse_record_errors [1; 0; 16]) 1 [0; 16] eq_refl ltac:(lia))).
    simpl. lia.
Defined.

Lemma mem_assign_exact m a n vals :
  0 <= a -> 0 <= n -> a + n <= Z.of_nat (length m) -> length vals = Z.to_nat n ->
  mem_assign m a (a + n) vals
  = Ok (take (Z.to_nat a) m ++ vals ++ drop (Z.to_nat a + Z.to_nat n) m).
Proof.
  intros Ha Hn Hm Hv. unfold mem_assign, mem_slice.
  assert (Hs : length (take (Z.to_nat (a + n) - Z.to_nat a) (drop (Z.to_nat a) m))
               = Z.to_nat n) by (rewrite length_take, length_drop; lia).
  rewrite Hs, Hv, Nat.eqb_refl. reflexivity.
Qed.

Lemma mem_assign_length m a b vals m' :
  mem_assign m a b vals = Ok m' -> length m' = length m.
Proof.
  unfold mem_assign, mem_slice. intros H.
  repeat case_match; simplify_eq;
  rewrite !length_app, ?length_replicate, length_take, length_drop, ?length_take,
    ?length_drop in *; try lia.
  match goal with E : (_ =? _)%nat = true |- _ => apply Nat.eqb_eq in E end. lia.
Qed.

Lemma load_record_mem_length base st r d st' d' :
  load_record base st r d = Ok (st', d') -> length (ld_mem st') = length (ld_mem st).
Proof.
  destruct r; simpl; unfold bind; intros H; repeat case_match; simplify_eq; simpl;
  try reflexivity; eauto using mem_assign_length.
Qed.

Lemma load_loop_mem_length base fuel : forall st d st',
  load_loop fuel base st d = Ok st' -> length (ld_mem st') = length (ld_mem st).
Proof.
  induction fuel as [|fuel IH]; intros st d st' H; simpl in H.
  - congruence.
  - destruct d as [|x d]; [congruence|].
    destruct (parse_record (x :: d)) as [[r d1]|e]; simpl in H; [|discriminate].
    destruct (load_record base st r d1) as [[st1 d2]|e] eqn:E; simpl in H; [|discriminate].
    rewrite <- (load_record_mem_length _ _ _ _ _ _ E).
    destruct (ld_end st1); [congruence|]. exact (IH _ _ _ H).
Qed.

Lemma load_record_rest base st r d st' d' :
  load_record base st r d = Ok (st', d') -> exists p, d = p ++ d'.
Proof.
  destruct r; simpl; unfold bind; intros H; repeat case_match; simplify_eq;
  try (exists []; reflexivity).
  eexists. symmetry. apply take_drop.
Qed.

Lemma load_record_end base st r d st' d' :
  load_record base st r d = Ok (st', d') -> ld_end st = false -> ld_end st' = true ->
  exists ea, r = EndRecord ea /\ ld_exec st' = UInt24_to_int ea.
Proof.
  destruct r; simpl; unfold bind; intros H He He'; repeat case_match; simplify_eq;
  simpl in *; try congruence; eauto.
Qed.

Lemma parse_record_end data ea rest :
  parse_record data = Ok (EndRecord ea, rest) ->
  data = 2 :: ea ++ rest /\ length ea = 3%nat.
Proof.
  destruct data as [|t [|x1 [|x2 [|x3 r]]]];
  unfold parse_record, from_buffer, bind; simpl; intros H;
  repeat case_match; simplify_eq; simpl in *; try lia; auto.
Qed.

Lemma load_loop_end base fuel : forall st d st',
  load_loop fuel base st d = Ok st' -> ld_end st = false -> ld_end st' = true ->
  exists pre ea post,
    d = pre ++ 2 :: ea ++ post /\ length ea = 3%nat /\ ld_exec st' = UInt24_to_int ea.
Proof.
  induction fuel as [|fuel IH]; intros st d st' H He He'; simpl in H.
  - congruence.
  - destruct d as [|x d]; [congruence|].
    destruct (parse_record (x :: d)) as [[r d1]|e] eqn:P; simpl in H; [|discriminate].
    destruct (load_record base st r d1) as [[st1 d2]|e] eqn:E; simpl in H; [|discriminate].
    destruct (load_record_rest _ _ _ _ _ _ E) as [p Hp].
    destruct (ld_end st1) eqn:He1.
    + injection H as <-.
      destruct (load_record_end _ _ _ _ _ _ E He He1) as (ea & -> & Hx).
      destruct (parse_record_end _ _ _ P) as [Hd Hl].
      exists [], ea, d1. rewrite Hd. auto.
    + destruct (IH _ _ _ H He1 He') as (pre & ea & post & Hd2 & Hl & Hx).
      destruct (parse_record_ok _ _ _ P) as (q & Hq & _).
      exists (q ++ p ++ pre), ea, post. split; [|auto].
      rewrite Hq, Hp, Hd2. rewrite !app_assoc. reflexivity.
Qed.

Lemma parse_header_bytes name sa pl rest :
  (length name <= 6)%nat ->
  parse_record (header_bytes name sa pl ++ rest)
  = Ok (HeaderRecord (name ++ replicate (6 - length name) 0)
          (int24_bytes sa) (int24_bytes pl), rest).
Proof.
  intros Hn. unfold header_bytes. rewrite <- !app_assoc.
  change ([0] ++ ?x) with (0 :: x). rewrite (app_assoc name).
  assert (Hl : length (name ++ replicate (6 - length name) 0) = 6%nat)
    by (rewrite length_app, length_replicate; lia).
  destruct (int24_bytes_shape sa) as (a1 & a2 & a3 & ->).
  destruct (int24_bytes_shape pl) as (c1 & c2 & c3 & ->).
  destruct (name ++ replicate (6 - length name) 0) as
    [|n1 [|n2 [|n3 [|n4 [|n5 [|n6 [|]]]]]]]; try discriminate.
  reflexivity.
Qed.

(** [X8] If the first record of the object file is not a Header record,
    [load_program] raises [ValueError("Header record not found ...")],
    whatever the memory and the load address. *)
Theorem load_program_header_first memory data start_location r rest :
  parse_record data = Ok (r, rest) ->
  (forall n s p, r <> HeaderRecord n s p) ->
  load_program memory data start_location = Err EHeaderMissing.
Proof.
  intros P Hr. destruct (parse_record_ok _ _ _ P) as (q & Hq & Hlen).
  unfold load_program.
  destruct data as [|x d];
    [apply (f_equal length) in Hq; rewrite length_app in Hq; simpl in Hq; lia|].
  simpl length. simpl load_loop. rewrite P. simpl.
  destruct r as [n s p|sa len|ea|a len]; [exfalso; exact (Hr n s p eq_refl)|..];
  reflexivity.
Qed.

Lemma load_program_header_first_witness :
  parse_record (text_bytes 0 3 ++ [23; 0; 0]) = Ok (TextRecord [0; 0; 0] 3, [23; 0; 0]) /\
  (forall n s p, TextRecord [0; 0; 0] 3 <> HeaderRecord n s p) /\
  load_program sim_memory (text_bytes 0 3 ++ [23; 0; 0]) 0 = Err EHeaderMissing.
Proof.
  assert (P : parse_record (text_bytes 0 3 ++ [23; 0; 0])
              = Ok (TextRecord [0; 0; 0] 3, [23; 0; 0])) by reflexivity.
  assert (Hr : forall n s p, TextRecord [0; 0; 0] 3 <> HeaderRecord n s p)
    by (intros; discriminate).
  split; [exact P|split; [exact Hr|]].
  exact (load_program_header_first sim_memory _ 0 _ _ P Hr).
Defined.

(** [X9] A Header record whose start address plus program length exceeds
    the memory size makes [load_program] raise [ValueError]; the check
    does not involve the load address [start_location]. *)
Theorem load_program_too_large memory name sa pl rest start_location :
  (length name <= 6)%nat -> Forall (fun x => x <> 0) name ->
  decode_utf8 name = Ok name ->
  0 <= sa <= 16777215 -> 0 <= pl <= 16777215 ->
  Z.of_nat (length memory) < sa + pl ->
  load_program memory (header_bytes name sa pl ++ rest) start_location
  = Err EProgramTooLarge.
Proof.
  intros Hn Hz Hd Hs Hp Hm. unfold load_program.
  destruct (header_bytes name sa pl ++ rest) as [|x d] eqn:E;
    [unfold header_bytes in E; discriminate|].
  simpl length. simpl load_loop. rewrite <- E, parse_header_bytes by exact Hn.
  cbn -[int24_bytes UInt24_to_int c_char_array_value decode_utf8].
  rewrite c_char_array_value_padded by exact Hz. rewrite Hd.
  cbn -[int24_bytes UInt24_to_int]. rewrite !uint24_roundtrip by lia.
  rewrite (proj2 (Z.ltb_lt _ _) Hm). reflexivity.
Qed.

Lemma load_program_too_large_witness :
  (length record_name <= 6)%nat /\ Forall (fun x => x <> 0) record_name /\
  decode_utf8 record_name = Ok record_name /\
  0 <= 32000 <= 16777215 /\ 0 <= 1000 <= 16777215 /\
  Z.of_nat (length sim_memory) < 32000 + 1000 /\
  load_program sim_memory (header_bytes record_name 32000 1000 ++ end_bytes 0) 0
  = Err EProgramTooLarge.
Proof.
  assert (H1 : (length record_name <= 6)%nat) by (simpl; lia).
  assert (H2 : Forall (fun x => x <> 0) record_name)
    by (unfold record_name; repeat constructor; discriminate).
  assert (H3 : decode_utf8 record_name = Ok record_name) by reflexivity.
  assert (H4 : 0 <= 32000 <= 16777215) by lia.
  assert (H5 : 0 <= 1000 <= 16777215) by lia.
  assert (H6 : Z.of_nat (length sim_memory) < 32000 + 1000)
    by (unfold sim_memory; rewrite length_replicate; simpl; lia).
  repeat (split; [assumption|]).
  exact (load_program_too_large sim_memory record_name 32000 1000 _ 0 H1 H2 H3 H4 H5 H6).
Defined.

(** [X10] Once the Header record has been seen, a Text record whose
    target range [start_location + starting_address] ... [+ length] lies
    in memory copies the next [length] bytes of the file there, leaves
    every other memory byte unchanged, and consumes exactly those bytes. *)
Theorem load_text_record start_location st sa len data :
  ld_header st = true ->
  0 <= start_location + UInt24_to_int sa -> 0 <= len ->
  start_location + UInt24_to_int sa + len <= Z.of_nat (length (ld_mem st)) ->
  (Z.to_nat len <= length data)%nat ->
  load_record start_location st (TextRecord sa len) data
  = Ok (set_mem st (take (Z.to_nat (start_location + UInt24_to_int sa)) (ld_mem st)
                    ++ take (Z.to_nat len) data
                    ++ drop (Z.to_nat (start_location + UInt24_to_int sa) + Z.to_nat len)
                            (ld_mem st)),
        drop (Z.to_nat len) data).
Proof.
  intros Hh Ha Hl Hm Hd. simpl. rewrite Hh. simpl.
  rewrite mem_assign_exact by (rewrite ?length_take; lia). reflexivity.
Qed.

Lemma load_text_record_witness :
  ld_header (header_seen (replicate 6 0)) = true /\
  0 <= 1 + UInt24_to_int [0; 0; 2] /\ 0 <= 2 /\
  1 + UInt24_to_int [0; 0; 2] + 2 <= Z.of_nat (length (ld_mem (header_seen (replicate 6 0)))) /\
  (Z.to_nat 2 <= length [7; 9; 11])%nat /\
  load_record 1 (header_seen (replicate 6 0)) (TextRecord [0; 0; 2] 2) [7; 9; 11]
  = Ok (set_mem (header_seen (replicate 6 0)) [0; 0; 0; 7; 9; 0], [11]).
Proof.
  assert (H1 : ld_header (header_seen (replicate 6 0)) = true) by reflexivity.
  assert (H2 : 0 <= 1 + UInt24_to_int [0; 0; 2]) by (vm_compute; discriminate).
  assert (H3 : 0 <= 2) by lia.
  assert (H4 : 1 + UInt24_to_int [0; 0; 2] + 2
               <= Z.of_nat (length (ld_mem (header_seen (replicate 6 0)))))
    by (vm_compute; discriminate).
  assert (H5 : (Z.to_nat 2 <= length [7; 9; 11])%nat) by (simpl; lia).
  repeat (split; [assumption|]).
  rewrite (load_text_record 1 _ [0; 0; 2] 2 [7; 9; 11] H1 H2 H3 H4 H5). reflexivity.
Defined.

(** [X11] A Text record whose target range runs past the end of memory
    and that carries at least two bytes makes the numpy slice assignment
    raise [ValueError]. *)
Theorem load_text_record_overflow start_location st sa len data :
  ld_header st = true ->
  0 <= start_location + UInt24_to_int sa -> 2 <= len ->
  Z.of_nat (length (ld_mem st)) < start_location + UInt24_to_int sa + len ->
  (Z.to_nat len <= length data)%nat ->
  load_record start_location st (TextRecord sa len) data = Err EBroadcast.
Proof.
  intros Hh Ha Hl Hm Hd. simpl. rewrite Hh. simpl.
  unfold mem_assign, mem_slice.
  assert (Hs : (length (take (Z.to_nat len) data)
                =? length (take (Z.to_nat (start_location + UInt24_to_int sa + len)
                                 - Z.to_nat (start_location + UInt24_to_int sa))
                           (drop (Z.to_nat (start_location + UInt24_to_int sa)) (ld_mem st))))%nat
               = false)
    by (apply Nat.eqb_neq; rewrite !length_take, length_drop; lia).
  rewrite Hs.
  destruct (take (Z.to_nat len) data) as [|v [|w vs]] eqn:Ht; try reflexivity;
  apply (f_equal length) in Ht; rewrite length_take in Ht; simpl in Ht; lia.
Qed.

Lemma load_text_record_overflow_witness :
  ld_header (header_seen (replicate 6 0)) = true /\
  0 <= 1 + UInt24_to_int [0; 0; 3] /\ 2 <= 3 /\
  Z.of_nat (length (ld_mem (header_seen (replicate 6 0)))) < 1 + UInt24_to_int [0; 0; 3] + 3 /\
  (Z.to_nat 3 <= length [7; 9; 11])%nat /\
  load_record 1 (header_seen (replicate 6 0)) (TextRecord [0; 0; 3] 3) [7; 9; 11]
  = Err EBroadcast.
Proof.
  assert (H1 : ld_header (header_seen (replicate 6 0)) = true) by reflexivity.
  assert (H2 : 0 <= 1 + UInt24_to_int [0; 0; 3]) by (vm_compute; discriminate).
  assert (H3 : 2 <= 3) by lia.
  assert (H4 : Z.of_nat (length (ld_mem (header_seen (replicate 6 0))))
               < 1 + UInt24_to_int [0; 0; 3] + 3) by reflexivity.
  assert (H5 : (Z.to_nat 3 <= length [7; 9; 11])%nat) by (simpl; lia).
  repeat (split; [assumption|]).
  exact (load_text_record_overflow 1 _ [0; 0; 3] 3 [7; 9; 11] H1 H2 H3 H4 H5).
Defined.

(** [X12] A successful [load_program] never changes the size of the
    memory image. *)
Theorem load_program_keeps_memory_size memory data start_location e t m :
  load_program memory data start_location = Ok (e, t, m) -> length m = length memory.
Proof.
  unfold load_program. destruct (load_loop _ _ _ _) as [st|err] eqn:E; simpl; [|discriminate].
  destruct (ld_end st); simpl; [|discriminate]. intros H. injection H as _ _ <-.
  exact (load_loop_mem_length _ _ _ _ _ E).
Qed.

Lemma load_program_keeps_memory_size_witness :
  load_program small_memory nop_program 0 = Ok (0, 3, [23; 0; 0; 0; 0; 0; 0; 0]) /\
  length [23; 0; 0; 0; 0; 0; 0; 0] = length small_memory.
Proof.
  assert (H : load_program small_memory nop_program 0 = Ok (0, 3, [23; 0; 0; 0; 0; 0; 0; 0]))
    by (vm_compute; reflexivity).
  split; [exact H|exact (load_program_keeps_memory_size _ _ _ _ _ _ H)].
Defined.

(** [X13] [load_program] succeeds only after reading an End record: the
    file contains the End tag followed by three bytes, and the returned
    execution address is those three bytes read with [UInt24.to_int]. *)
Theorem load_program_exec_from_end memory data start_location e t m :
  load_program memory data start_location = Ok (e, t, m) ->
  exists pre ea post,
    data = pre ++ 2 :: ea ++ post /\ length ea = 3%nat /\ e = UInt24_to_int ea.
Proof.
  unfold load_program. destruct (load_loop _ _ _ _) as [st|err] eqn:E; simpl; [|discriminate].
  destruct (ld_end st) eqn:He; simpl; [|discriminate]. intros H. injection H as <- _ _.
  exact (load_loop_end _ _ _ _ _ E eq_refl He).
Qed.

Lemma load_program_exec_from_end_witness :
  load_program small_memory nop_program 0 = Ok (0, 3, [23; 0; 0; 0; 0; 0; 0; 0]) /\
  exists pre ea post,
    nop_program = pre ++ 2 :: ea ++ post /\ length ea = 3%nat /\ 0 = UInt24_to_int ea.
Proof.
  assert (H : load_program small_memory nop_program 0 = Ok (0, 3, [23; 0; 0; 0; 0; 0; 0; 0]))
    by (vm_compute; reflexivity).
  split; [exact H|exact (load_program_exec_from_end _ _ _ _ _ _ H)].
Defined.

Lemma mem_slice_word m d :
  0 <= d -> d + 3 <= Z.of_nat (length m) ->
  mem_slice m d (d + 3) = take 3 (drop (Z.to_nat d) m) /\
  length (mem_slice m d (d + 3)) = 3%nat.
Proof.
  intros H1 H2. unfold mem_slice.
  replace (Z.to_nat (d + 3) - Z.to_nat d)%nat with 3%nat by lia.
  split; [reflexivity|]. rewrite length_take, length_drop. lia.
Qed.

Lemma from_buffer_exact n l : length l = n -> from_buffer n l = Ok l.
Proof.
  intros <-. unfold from_buffer. rewrite Nat.leb_refl, take_ge by lia. reflexivity.
Qed.

Lemma get_word_exact m d :
  0 <= d -> d + 3 <= Z.of_nat (length m) ->
  get_word m d = Ok (mem_slice m d (d + 3)).
Proof.
  intros H1 H2. unfold get_word. apply from_buffer_exact.
  apply (mem_slice_word m d H1 H2).
Qed.

Lemma reg_set_reg_same s r v : reg (set_reg s r v) r = v.
Proof. destruct r; reflexivity. Qed.

Lemma reg_set_reg_other s r r' v : r <> r' -> reg (set_reg s r v) r' = reg s r'.
Proof. unfold reg, set_reg. destruct r, r'; simpl; congruence. Qed.

(** [X14] A word store ([STA], [STX], [STL], [STS]) of a register at
    [d .. d+2] inside memory writes exactly the register's three bytes
    there and leaves the rest of memory and the registers unchanged; a
    word load ([LDA], [LDX], [LDL], [LDS]) from [d] afterwards reads those
    three bytes back. *)
Theorem store_then_load_word target target' s d :
  0 <= d -> d + 3 <= Z.of_nat (length (memory s)) -> length (reg s target) = 3%nat ->
  target <> REG_PC -> target <> REG_SW -> target' <> REG_PC -> target' <> REG_SW ->
  exists s1 s2,
    effect (match target with REG_A => STA | REG_X => STX | REG_L => STL | _ => STS end) s d
      = Ok s1 /\
    memory s1 = take (Z.to_nat d) (memory s) ++ reg s target
                ++ drop (Z.to_nat d + 3) (memory s) /\
    registers s1 = registers s /\
    effect (match target' with REG_A => LDA | REG_X => LDX | REG_L => LDL | _ => LDS end) s1 d
      = Ok s2 /\
    reg s2 target' = reg s target.
Proof.
  intros Hd Hm Hl Ht1 Ht2 Ht3 Ht4.
  set (m' := take (Z.to_nat d) (memory s) ++ reg s target ++ drop (Z.to_nat d + 3) (memory s)).
  assert (Hst : make_store_effect target false s d = Ok (set_memory s m')).
  { unfold make_store_effect. rewrite mem_assign_exact by lia. reflexivity. }
  assert (Hlen : length m' = length (memory s)).
  { unfold m'. rewrite !length_app, length_take, length_drop, Hl. lia. }
  assert (Hsl : mem_slice m' d (d + 3) = reg s target).
  { destruct (mem_slice_word m' d Hd ltac:(lia)) as [-> _]. unfold m'.
    rewrite drop_app_length' by (rewrite length_take; lia).
    apply take_app_length'. congruence. }
  assert (Hld : forall tg, make_load_effect tg false (set_memory s m') d
                  = Ok (set_reg (set_memory s m') tg (reg s target))).
  { intros tg. unfold make_load_effect. simpl memory. rewrite Hsl.
    rewrite from_buffer_exact by exact Hl. reflexivity. }
  exists (set_memory s m'), (set_reg (set_memory s m') target' (reg s target)).
  split; [destruct target; try contradiction; exact Hst|].
  split; [reflexivity|]. split; [reflexivity|].
  split; [destruct target'; try contradiction; apply Hld|].
  apply reg_set_reg_same.
Qed.

Lemma store_then_load_word_witness :
  0 <= 2 /\ 2 + 3 <= Z.of_nat (length (memory store_machine)) /\
  length (reg store_machine REG_A) = 3%nat /\
  exists s1 s2,
    effect STA store_machine 2 = Ok s1 /\
    memory s1 = take (Z.to_nat 2) (memory store_machine) ++ reg store_machine REG_A
                ++ drop (Z.to_nat 2 + 3) (memory store_machine) /\
    registers s1 = registers store_machine /\
    effect LDX s1 2 = Ok s2 /\ reg s2 REG_X = reg store_machine REG_A.
Proof.
  assert (H1 : 0 <= 2) by lia.
  assert (H2 : 2 + 3 <= Z.of_nat (length (memory store_machine))) by (simpl; lia).
  assert (H3 : length (reg store_machine REG_A) = 3%nat) by reflexivity.
  repeat (split; [assumption|]).
  exact (store_then_load_word REG_A REG_X store_machine 2 H1 H2 H3
           ltac:(discriminate) ltac:(discriminate) ltac:(discriminate) ltac:(discriminate)).
Defined.

(** [X15] [STCH] never stores anything: it assigns the three bytes of the
    accumulator to the one-element slice [memory[d:d+1]], which numpy
    refuses with [ValueError], whatever the address. *)
Theorem stch_always_fails s d :
  length (reg s REG_A) = 3%nat -> effect STCH s d = Err EBroadcast.
Proof.
  intros Hl. simpl. unfold make_store_effect, mem_assign, mem_slice.
  destruct (reg s REG_A) as [|a [|b [|c [|]]]]; try discriminate.
  assert (Hn : length (take (Z.to_nat (d + 1) - Z.to_nat d) (drop (Z.to_nat d) (memory s)))
               <> 3%nat) by (rewrite length_take; lia).
  simpl length at 1. destruct (Nat.eqb_spec 3 (length (take (Z.to_nat (d + 1) - Z.to_nat d)
    (drop (Z.to_nat d) (memory s))))) as [E|_]; [lia|]. reflexivity.
Qed.

Lemma stch_always_fails_witness :
  length (reg store_machine REG_A) = 3%nat /\ effect STCH store_machine 2 = Err EBroadcast.
Proof.
  assert (H : length (reg store_machine REG_A) = 3%nat) by reflexivity.
  split; [exact H|exact (stch_always_fails store_machine 2 H)].
Defined.

(** [X16] [LDCH] at an address [d] inside memory sets the accumulator to
    the bytes [0, 0, memory[d]]; at an address at or past the end of
    memory it raises [ValueError] (the buffer is too small). *)
Theorem ldch_loads_byte s d :
  0 <= d ->
  (d < Z.of_nat (length (memory s)) ->
     effect LDCH s d = Ok (set_reg s REG_A [0; 0; nth (Z.to_nat d) (memory s) 0])) /\
  (Z.of_nat (length (memory s)) <= d -> effect LDCH s d = Err EBufferTooSmall).
Proof.
  intros Hd. simpl. unfold make_load_effect, mem_slice.
  replace (Z.to_nat (d + 1) - Z.to_nat d)%nat with 1%nat by lia.
  split; intros Hm.
  - destruct (lookup_lt_is_Some (memory s) (Z.to_nat d)) as [_ Hs].
    destruct (Hs ltac:(lia)) as [x Hx].
    rewrite (drop_S _ _ _ Hx), (nth_lookup _ _ _), Hx. reflexivity.
  - rewrite drop_ge by lia. reflexivity.
Qed.

Lemma ldch_loads_byte_witness :
  0 <= 1 /\
  effect LDCH (start_machine [5; 6; 7] 0 []) 1
  = Ok (set_reg (start_machine [5; 6; 7] 0 []) REG_A [0; 0; 6]).
Proof.
  split; [lia|]. apply (ldch_loads_byte (start_machine [5; 6; 7] 0 []) 1 ltac:(lia)).
  simpl. lia.
Defined.

(** [X17] [COMP] on a word inside memory leaves everything but [SW]
    unchanged and sets [SW] to 0, 1 or 2 as the accumulator is equal to,
    less than or greater than the word, both read as unsigned 24-bit
    values. *)
Theorem comp_sets_sw s d :
  0 <= d -> d + 3 <= Z.of_nat (length (memory s)) ->
  let a := UInt24_to_int (reg s REG_A) in
  let w := UInt24_to_int (mem_slice (memory s) d (d + 3)) in
  effect COMP s d
  = Ok (set_reg s REG_SW (int24_bytes (if a =? w then 0 else if a <? w then 1 else 2))).
Proof.
  intros H1 H2 a w. simpl. unfold compare_effect, compare_effect_reg.
  rewrite get_word_exact by assumption. simpl bind.
  fold a w. destruct (a =? w), (a <? w); reflexivity.
Qed.

Lemma comp_sets_sw_witness :
  0 <= 0 /\ 0 + 3 <= Z.of_nat (length (memory store_machine)) /\
  effect COMP store_machine 0 = Ok (set_reg store_machine REG_SW (int24_bytes 2)).
Proof.
  assert (H1 : 0 <= 0) by lia.
  assert (H2 : 0 + 3 <= Z.of_nat (length (memory store_machine))) by (simpl; lia).
  split; [exact H1|split; [exact H2|]].
  rewrite (comp_sets_sw store_machine 0 H1 H2). reflexivity.
Defined.

(** [X18] [TIX] adds one to [X] (raising [ValueError] when [X] is already
    [0xFFFFFF]) and then sets [SW] by comparing the new [X] with the word
    at [d], unsigned. *)
Theorem tix_increments_and_compares s d :
  0 <= d -> d + 3 <= Z.of_nat (length (memory s)) ->
  let x := UInt24_to_int (reg s REG_X) in
  let w := UInt24_to_int (mem_slice (memory s) d (d + 3)) in
  (x = 16777215 -> effect TIX s d = Err ERange) /\
  (0 <= x < 16777215 ->
     effect TIX s d
     = Ok (set_reg (set_reg s REG_X (int24_bytes (x + 1))) REG_SW
             (int24_bytes (if x + 1 =? w then 0 else if x + 1 <? w then 1 else 2)))).
Proof.
  intros H1 H2 x w. simpl. unfold tix_effect, UInt24_from_int. fold x.
  split; intros Hx.
  - rewrite Hx. reflexivity.
  - rewrite (proj2 (Z.leb_le 0 (x + 1))), (proj2 (Z.leb_le (x + 1) 16777215)) by lia.
    cbn [andb bind]. unfold compare_effect_reg.
    change (memory (set_reg s REG_X (int24_bytes (x + 1)))) with (memory s).
    rewrite get_word_exact by assumption. cbn [bind].
    rewrite reg_set_reg_same, uint24_roundtrip by lia. fold w.
    destruct (x + 1 =? w), (x + 1 <? w); reflexivity.
Qed.

Lemma tix_increments_and_compares_witness :
  0 <= 0 /\ 0 + 3 <= Z.of_nat (length (memory store_machine)) /\
  effect TIX store_machine 0
  = Ok (set_reg (set_reg store_machine REG_X (int24_bytes 1)) REG_SW (int24_bytes 2)).
Proof.
  assert (H1 : 0 <= 0) by lia.
  assert (H2 : 0 + 3 <= Z.of_nat (length (memory store_machine))) by (simpl; lia).
  split; [exact H1|split; [exact H2|]].
  rewrite (proj2 (tix_increments_and_compares store_machine 0 H1 H2)
                 ltac:(vm_compute; split; [discriminate|reflexivity])).
  reflexivity.
Defined.

(** [X19] [JSUB d] saves the return address (the already advanced [PC])
    in [L] and jumps to [d]; a following [RSUB] jumps back to the saved
    address. Addresses beyond [0xFFFFFF] make [JSUB] raise [ValueError]. *)
Theorem jsub_then_rsub s d d' :
  (0 <= d <= 16777215 ->
   exists s1 s2,
     effect JSUB s d = Ok s1 /\ reg s1 REG_PC = int24_bytes d /\
     reg s1 REG_L = reg s REG_PC /\
     effect RSUB s1 d' = Ok s2 /\ reg s2 REG_PC = reg s REG_PC) /\
  (16777215 < d -> effect JSUB s d = Err ERange).
Proof.
  simpl. unfold jsub_effect, rsub_effect, UInt24_from_int. split; intros Hd.
  - rewrite (proj2 (Z.leb_le 0 d)), (proj2 (Z.leb_le d 16777215)) by lia. simpl.
    eexists _, _. split; [reflexivity|]. split; [apply reg_set_reg_same|].
    split; [reflexivity|]. split; [reflexivity|]. reflexivity.
  - rewrite (proj2 (Z.leb_gt d 16777215)) by lia. rewrite andb_false_r. reflexivity.
Qed.

Lemma jsub_then_rsub_witness :
  0 <= 4096 <= 16777215 /\
  exists s1 s2,
    effect JSUB (start_machine [] 0 []) 4096 = Ok s1 /\ reg s1 REG_PC = int24_bytes 4096 /\
    reg s1 REG_L = reg (start_machine [] 0 []) REG_PC /\
    effect RSUB s1 0 = Ok s2 /\ reg s2 REG_PC = reg (start_machine [] 0 []) REG_PC.
Proof.
  split; [lia|].
  exact (proj1 (jsub_then_rsub (start_machine [] 0 []) 4096 0) ltac:(lia)).
Defined.



(** [X21] When the fetched opcode byte is not one of the 24 opcodes
    ([code_lut.get] returns [None]), the run loop stops with
    "Unknown opcode" before changing anything. *)
Theorem step_unknown_opcode s code :
  fetch s = Ok code -> (sic_opcode code < 0 \/ 23 < sic_opcode code) ->
  step s = Stop (UnknownOpcode (sic_opcode code)).
Proof.
  intros Hf Hc. unfold step. rewrite Hf.
  assert (Hl : code_lut (sic_opcode code) = None).
  { unfold code_lut. destruct (find _ _) as [o|] eqn:E; [|reflexivity].
    apply find_some in E as [_ E]. apply Z.eqb_eq in E.
    destruct o; simpl in E; lia. }
  rewrite Hl. reflexivity.
Qed.

Lemma step_unknown_opcode_witness :
  fetch (start_machine [99; 0; 0] 0 []) = Ok {| sic_opcode := 99; sic_ia := 0 |} /\
  (99 < 0 \/ 23 < 99) /\
  step (start_machine [99; 0; 0] 0 []) = Stop (UnknownOpcode 99).
Proof.
  assert (H1 : fetch (start_machine [99; 0; 0] 0 []) = Ok {| sic_opcode := 99; sic_ia := 0 |})
    by reflexivity.
  assert (H2 : 99 < 0 \/ 23 < 99) by lia.
  split; [exact H1|split; [exact H2|]].
  exact (step_unknown_opcode _ _ H1 H2).
Defined.

(** [X22] When fewer than three bytes of memory remain at [PC], decoding
    the instruction raises [ValueError] (the buffer is too small) and the
    run loop ends with that error. *)
Theorem step_past_memory_end s :
  Z.of_nat (length (memory s)) < UInt24_to_int (reg s REG_PC) + 3 ->
  step s = Stop (Crashed EBufferTooSmall).
Proof.
  intros H. unfold step, fetch, SIC_from_bytes, from_buffer, mem_slice.
  rewrite (proj2 (Nat.leb_gt _ _)); [reflexivity|].
  rewrite length_take, length_drop. lia.
Qed.

Lemma step_past_memory_end_witness :
  Z.of_nat (length (memory (start_machine [23; 0; 0; 23] 3 []))) <
    UInt24_to_int (reg (start_machine [23; 0; 0; 23] 3 []) REG_PC) + 3 /\
  step (start_machine [23; 0; 0; 23] 3 []) = Stop (Crashed EBufferTooSmall).
Proof.
  assert (H : Z.of_nat (length (memory (start_machine [23; 0; 0; 23] 3 []))) <
    UInt24_to_int (reg (start_machine [23; 0; 0; 23] 3 []) REG_PC) + 3) by reflexivity.
  split; [exact H|exact (step_past_memory_end _ H)].
Defined.

(** [X23] [determine_instruction] returns an opcode exactly for the
    opcode mnemonics and a directive exactly for the directive names
    (no name is both); any other name raises [InvalidInstructionError]. *)
Theorem determine_instruction_names s :
  (forall o, determine_instruction s = Ok (OpCode o) <-> s = menemonic o) /\
  (forall d, determine_instruction s = Ok (Directive d) <-> s = directive_name d) /\
  ((forall o, s <> menemonic o) -> (forall d, s <> directive_name d) ->
   determine_instruction s = Err EInvalidInstruction).
Proof.
  split; [|split].
  - intros o. split.
    + unfold determine_instruction. destruct (find _ all_opcodes) as [o'|] eqn:E.
      * intros H. injection H as <-. apply find_some in E as [_ E].
        symmetry. apply String.eqb_eq. exact E.
      * destruct (find _ all_directives); discriminate.
    + intros ->. destruct o; reflexivity.
  - intros d. split.
    + unfold determine_instruction. destruct (find _ all_opcodes); [discriminate|].
      destruct (find _ all_directives) as [d'|] eqn:E; [|discriminate].
      intros H. injection H as <-. apply find_some in E as [_ E].
      symmetry. apply String.eqb_eq. exact E.
    + intros ->. destruct d; reflexivity.
  - intros Ho Hd. unfold determine_instruction.
    destruct (find _ all_opcodes) as [o|] eqn:E.
    + apply find_some in E as [_ E]. apply String.eqb_eq in E.
      exfalso. exact (Ho o (eq_sym E)).
    + destruct (find _ all_directives) as [d|] eqn:E'; [|reflexivity].
      apply find_some in E' as [_ E']. apply String.eqb_eq in E'.
      exfalso. exact (Hd d (eq_sym E')).
Qed.

Lemma in_lstrip_l c l : In c (lstrip_l l) -> In c l.
Proof. induction l as [|x l IH]; simpl; [auto|]. destruct (is_space x); simpl; auto. Qed.

Lemma in_strip_l c l : In c (strip_l l) -> In c l.
Proof.
  unfold strip_l, rstrip_l. intros H. apply in_lstrip_l.
  apply in_rev, in_lstrip_l in H. rewrite <- in_rev in H. exact H.
Qed.

Lemma take_word_in l w r :
  take_word l = (w, r) -> (forall c, In c w -> In c l) /\ (forall c, In c r -> In c l).
Proof.
  revert w r. induction l as [|x l IH]; intros w r H; simpl in H.
  - injection H as <- <-. simpl. tauto.
  - destruct (is_space x).
    + injection H as <- <-. simpl. tauto.
    + destruct (take_word l) as [w' r'] eqn:E. injection H as <- <-.
      destruct (IH _ _ eq_refl) as [H1 H2]. simpl. split; intros c Hc; [|auto].
      destruct Hc; auto.
Qed.

Lemma split_max_in n : forall l t c, In t (split_max n l) -> In c t -> In c l.
Proof.
  induction n as [|n IH]; intros l t c Ht Hc; cbn [split_max] in Ht;
  destruct (lstrip_l l) as [|x l'] eqn:E; cbn [split_max] in Ht; try contradiction.
  - destruct Ht as [<-|[]]. apply in_lstrip_l. rewrite E. exact Hc.
  - destruct (take_word (x :: l')) as [w rest] eqn:W.
    destruct (take_word_in _ _ _ W) as [Hw Hr].
    apply in_lstrip_l. rewrite E. destruct Ht as [<-|Ht]; [auto|].
    apply Hr. exact (IH _ _ _ Ht Hc).
Qed.

Lemma split_max_length n : forall l, (length (split_max n l) <= S n)%nat.
Proof.
  induction n as [|n IH]; intros l; cbn [split_max];
  destruct (lstrip_l l) as [|x l']; cbn [split_max length]; try lia.
  destruct (take_word (x :: l')) as [w rest]. cbn [length]. specialize (IH rest). lia.
Qed.

Lemma list_filter_length {A} (f : A -> bool) l :
  (length (List.filter f l) <= length l)%nat.
Proof. induction l as [|x l IH]; simpl; [lia|]. destruct (f x); simpl; lia. Qed.

Lemma before_hash_in c l : In c (before_hash l) -> In c l /\ c <> "#"%char.
Proof.
  induction l as [|x l IH]; simpl; [tauto|].
  destruct (ascii_eqb x "#"%char) eqn:E; simpl; [tauto|].
  intros [<-|H].
  - split; [auto|]. intros ->. discriminate.
  - destruct (IH H). auto.
Qed.

Lemma determine_instruction_names_witness :
  determine_instruction (menemonic LDA) = Ok (OpCode LDA) /\
  determine_instruction "FOO" = Err EInvalidInstruction.
Proof.
  split.
  - exact (proj2 (proj1 (determine_instruction_names (menemonic LDA)) LDA) eq_refl).
  - apply (proj2 (proj2 (determine_instruction_names "FOO"))).
    + intros o; destruct o; discriminate.
    + intros d; destruct d; discriminate.
Defined.

(** [X24] A line the tokenizer keeps gives at most three tokens (label,
    mnemonic, operand); each is non-empty and holds no [#] (everything
    from the first [#] on is a comment). *)
Theorem tokenize_line_tokens line toks :
  tokenize_line line = Some toks ->
  (length toks <= 3)%nat /\
  Forall (fun t => chars t <> [] /\ ~ In "#"%char (chars t)) toks.
Proof.
  unfold tokenize_line. destruct (chars line) as [|c l]; [discriminate|].
  destruct (startswith_l _ _); [discriminate|].
  intros H. injection H as <-. split.
  - rewrite length_map. eapply Nat.le_trans; [apply list_filter_length|].
    rewrite length_map. exact (split_max_length 2 (before_hash (c :: l))).
  - apply List.Forall_forall. intros t Hin.
    apply in_map_iff in Hin as [x [<- Hx]].
    apply filter_In in Hx as [Hx Hne]. apply in_map_iff in Hx as [p [<- Hp]].
    unfold chars, str. rewrite list_ascii_of_string_of_list_ascii. split.
    + intros E. rewrite E in Hne. discriminate.
    + intros Hh. apply in_strip_l in Hh.
      destruct (before_hash_in _ _ (split_max_in 2 (before_hash (c :: l)) p _ Hp Hh)) as [_ Hn]. auto.
Qed.

Lemma tokenize_line_tokens_witness :
  tokenize_line "FIRST LDA BUF,X # load" = Some ["FIRST"; "LDA"; "BUF,X"]%string /\
  (length ["FIRST"; "LDA"; "BUF,X"]%string <= 3)%nat /\
  Forall (fun t => chars t <> [] /\ ~ In "#"%char (chars t)) ["FIRST"; "LDA"; "BUF,X"]%string.
Proof.
  assert (H : tokenize_line "FIRST LDA BUF,X # load" = Some ["FIRST"; "LDA"; "BUF,X"]%string)
    by reflexivity.
  split; [exact H|exact (tokenize_line_tokens _ _ H)].
Defined.

Lemma splitlines_l_no_break n : forall l cur, (length l <= n)%nat ->
  (forall c, In c cur -> is_line_break c = false) ->
  forall t c, In t (splitlines_l l cur) -> In c t -> is_line_break c = false.
Proof.
  induction n as [|n IH]; intros l cur Hn Hcur t c Ht Hc.
  - destruct l; [|simpl in Hn; lia]. simpl in Ht.
    destruct cur; simpl in Ht; [contradiction|].
    destruct Ht as [<-|[]]. apply Hcur. apply in_rev. exact Hc.
  - assert (Hr : In c (rev cur) -> is_line_break c = false)
      by (intros Hi; apply Hcur; apply in_rev; exact Hi).
    assert (Hnil : forall c, In c (@nil ascii) -> is_line_break c = false)
      by (intros ? []).
    destruct l as [|x l]; simpl in Ht.
    + destruct cur; simpl in Ht; [contradiction|].
      destruct Ht as [<-|[]]. auto.
    + simpl in Hn. destruct (is_line_break x) eqn:Ex.
      * destruct (code x =? 13).
        -- destruct l as [|y l2].
           ++ destruct Ht as [<-|[]]. auto.
           ++ simpl in Hn. destruct (code y =? 10); destruct Ht as [<-|Ht]; auto.
              ** exact (IH l2 [] ltac:(lia) Hnil t c Ht Hc).
              ** exact (IH (y :: l2) [] ltac:(simpl; lia) Hnil t c Ht Hc).
        -- destruct Ht as [<-|Ht]; [auto|]. exact (IH l [] ltac:(lia) Hnil t c Ht Hc).
      * refine (IH l (x :: cur) ltac:(lia) _ t c Ht Hc).
        intros d [<-|Hd]; [exact Ex|]. apply Hcur. exact Hd.
Qed.

(** [X25] No line produced by [str.splitlines()] contains a line-break
    character ([\n], [\r], [\v], [\f], [\x1c] - [\x1e], [\x85]). *)
Theorem splitlines_no_line_break s :
  Forall (fun line => forall c, In c (chars line) -> is_line_break c = false) (splitlines s).
Proof.
  unfold splitlines. apply List.Forall_forall. intros line Hin c Hc.
  apply in_map_iff in Hin as [t [<- Ht]].
  unfold chars, str in Hc. rewrite list_ascii_of_string_of_list_ascii in Hc.
  exact (splitlines_l_no_break _ _ [] (le_n _) (fun _ H => match H with end) t c Ht Hc).
Qed.

Lemma int24_bytes_range v : Forall (fun x => 0 <= x < 256) (int24_bytes v).
Proof.
  unfold int24_bytes. rewrite !land_255.
  repeat constructor; apply Z.mod_pos_bound; lia.
Qed.

Lemma UInt24_from_int_ok v b : UInt24_from_int v = Ok b -> b = int24_bytes v.
Proof. unfold UInt24_from_int. destruct (_ && _); congruence. Qed.

Lemma Int24_from_int_ok v b : Int24_from_int v = Ok b -> b = int24_bytes v.
Proof. unfold Int24_from_int. destruct (_ && _); congruence. Qed.

(** [X26] Every WORD operand that [parse_word_operand] accepts (hex
    [0x......], unsigned [...U] or signed decimal) becomes exactly three
    bytes, each in [0 .. 255]. *)
Theorem parse_word_operand_bytes opd b :
  parse_word_operand opd = Ok b ->
  length b = 3%nat /\ Forall (fun x => 0 <= x < 256) b.
Proof.
  assert (G : forall v, length (int24_bytes v) = 3%nat /\
                        Forall (fun x => 0 <= x < 256) (int24_bytes v))
    by (intros v; split; [reflexivity|apply int24_bytes_range]).
  unfold parse_word_operand. intros H.
  repeat (case_match; try discriminate);
  try (apply UInt24_from_int_ok in H; subst; apply G).
  match goal with E : Int24_from_int _ = Ok _ |- _ => apply Int24_from_int_ok in E end.
  subst. unfold from_buffer in H. simpl in H. injection H as <-. apply G.
Qed.

Lemma parse_word_operand_bytes_witness :
  parse_word_operand "-1" = Ok [255; 255; 255] /\
  length [255; 255; 255] = 3%nat /\ Forall (fun x => 0 <= x < 256) [255; 255; 255].
Proof.
  assert (H : parse_word_operand "-1" = Ok [255; 255; 255]) by reflexivity.
  split; [exact H|exact (parse_word_operand_bytes _ _ H)].
Defined.



Lemma parse_and_create_symtab_go_sound toks : forall st ins sa lc st' ins' pl,
  parse_and_create_symtab_go toks st ins sa lc = Ok (st', ins', pl) ->
  symtab_sound st ins -> symtab_sound st' ins'.
Proof.
  induction toks as [|[line token] toks IH]; intros st ins sa lc st' ins' pl H Hs; simpl in H.
  - injection H as <- <- _. exact Hs.
  - apply bind_ok in H as [i0 [_ H]].
    apply bind_ok in H as [[i size] [_ H]].
    apply bind_ok in H as [[sa' lc'] [_ H]].
    apply (IH _ _ _ _ _ _ _ H).
    assert (Hs' : symtab_sound st (ins ++ [i])).
    { intros l a Hl. destruct (Hs l a Hl) as (j & Hj & Hj'). exists j.
      split; [apply in_or_app; left; exact Hj|exact Hj']. }
    destruct (label i) as [l|] eqn:El; [|exact Hs'].
    destruct (String.eqb l ""); [exact Hs'|].
    intros l' a Hl'. unfold SYMTAB in Hl'.
    apply lookup_insert_Some in Hl' as [[<- <-]|[_ Hl']].
    + exists i. split; [apply in_or_app; right; left; reflexivity|]. auto.
    + exact (Hs' l' a Hl').
Qed.


(** [X28] Every symbol in the symbol table built by
    [parse_and_create_symtab] is the label of one of the returned
    instructions and maps to that instruction's location. *)
Theorem symtab_entries_from_labels tokens symtab instructions program_length :
  parse_and_create_symtab tokens = Ok (symtab, instructions, program_length) ->
  forall l a, symtab !! l = Some a ->
  exists i, In i instructions /\ label i = Some l /\ location i = a.
Proof.
  unfold parse_and_create_symtab. intros H.
  apply (parse_and_create_symtab_go_sound _ _ _ _ _ _ _ _ H).
  intros l a Hl. unfold SYMTAB in Hl. rewrite lookup_empty in Hl. discriminate.
Qed.

Lemma symtab_entries_from_labels_witness :
  exists symtab instructions program_length,
    parse_and_create_symtab symtab_example_tokens
      = Ok (symtab, instructions, program_length) /\
    forall l a, symtab !! l = Some a ->
    exists i, In i instructions /\ label i = Some l /\ location i = a.
Proof.
  eexists _, _, _.
  match goal with |- ?A /\ _ => eassert (HA : A) by (vm_compute; reflexivity) end.
  split; [exact HA|exact (symtab_entries_from_labels _ _ _ _ HA)].
Defined.

Lemma emit_instruction_shape st i o m :
  emit_instruction st i = Ok (o, m) ->
  Forall is_text_or_code o /\ Forall is_modification m.
Proof.
  unfold emit_instruction, ModificationRecord_create. intros H.
  repeat case_match; simplify_eq; unfold bind in *; repeat case_match; simplify_eq;
  repeat constructor.
Qed.

Lemma emit_chunk_shape st ch : forall o m,
  emit_chunk st ch = Ok (o, m) -> Forall is_text_or_code o /\ Forall is_modification m.
Proof.
  induction ch as [|i ch IH]; intros o m H; simpl in H.
  - injection H as <- <-. split; constructor.
  - apply bind_ok in H as [[o1 m1] [E1 H]].
    apply bind_ok in H as [[o2 m2] [E2 H]]. injection H as <- <-.
    destruct (emit_instruction_shape _ _ _ _ E1), (IH _ _ E2).
    split; apply Forall_app; split; assumption.
Qed.

Lemma emit_chunks_shape st chunks : forall o m,
  emit_chunks st chunks = Ok (o, m) ->
  Forall is_text_or_code o /\ Forall is_modification m /\
  match o with [] => True | TextObj _ _ :: _ => True | _ => False end.
Proof.
  induction chunks as [|[c len] chunks IH]; intros o m H; cbn [emit_chunks] in H.
  - injection H as <- <-. repeat split; constructor.
  - destruct c as [|x c]; [discriminate|].
    apply bind_ok in H as [t [Et H]].
    apply bind_ok in H as [[o1 m1] [E1 H]].
    apply bind_ok in H as [[o2 m2] [E2 H]]. injection H as <- <-.
    unfold TextRecord_create in Et. apply bind_ok in Et as [s [_ Et]]. injection Et as <-.
    destruct (emit_chunk_shape _ _ _ _ E1) as [H1 H2].
    destruct (IH _ _ E2) as [H3 [H4 _]].
    split; [constructor; [exact I|apply Forall_app; split; assumption]|].
    split; [apply Forall_app; split; assumption|exact I].
Qed.

(** [X29] A successful [create_object_program] returns the Header record
    first and the End record last; between them come the Text records
    with their instruction and data objects, starting with a Text record,
    and after those all the Modification records. *)
Theorem create_object_program_layout symtab instructions program_length out :
  create_object_program symtab instructions program_length = Ok out ->
  exists name sa pl objs mods ea,
    out = HeaderObj name sa pl :: objs ++ mods ++ [EndObj ea] /\
    Forall is_text_or_code objs /\ Forall is_modification mods /\
    match objs with [] => True | TextObj _ _ :: _ => True | _ => False end.
Proof.
  unfold create_object_program. intros H.
  destruct (length instructions <? 3)%nat; [discriminate|].
  destruct (head instructions) as [start|], (last instructions) as [end_|]; try discriminate.
  destruct (is_start start && _); [|discriminate].
  apply bind_ok in H as [sa0 [_ H]].
  apply bind_ok in H as [nm [_ H]].
  apply bind_ok in H as [ea0 [_ H]].
  apply bind_ok in H as [name [_ H]].
  apply bind_ok in H as [hd [Eh H]].
  destruct (group_instructions_for_text_record _) as [chunks raised].
  apply bind_ok in H as [[objs mods] [Eo H]].
  apply bind_ok in H as [u [_ H]].
  apply bind_ok in H as [en [Ee H]]. injection H as <-.
  unfold HeaderRecord_create in Eh.
  destruct (length name <=? 6)%nat; [|discriminate].
  apply bind_ok in Eh as [s [_ Eh]]. apply bind_ok in Eh as [p [_ Eh]].
  injection Eh as <-.
  unfold EndRecord_create in Ee. apply bind_ok in Ee as [e [_ Ee]]. injection Ee as <-.
  destruct (emit_chunks_shape _ _ _ _ Eo) as (H1 & H2 & H3).
  do 6 eexists. split; [reflexivity|]. auto.
Qed.

Lemma create_object_program_layout_witness :
  exists symtab instructions program_length out,
    parse_and_create_symtab symtab_example_tokens
      = Ok (symtab, instructions, program_length) /\
    create_object_program symtab instructions program_length = Ok out /\
    exists name sa pl objs mods ea,
      out = HeaderObj name sa pl :: objs ++ mods ++ [EndObj ea] /\
      Forall is_text_or_code objs /\ Forall is_modification mods /\
      match objs with [] => True | TextObj _ _ :: _ => True | _ => False end.
Proof.
  eexists _, _, _, _.
  match goal with |- ?A /\ ?B /\ _ =>
    eassert (HA : A) by (vm_compute; reflexivity);
    eassert (HB : B) by (vm_compute; reflexivity) end.
  split; [exact HA|split; [exact HB|exact (create_object_program_layout _ _ _ _ HB)]].
Defined.

Lemma segments_out_cons r objs segs :
  object_file (segments_out ((r, objs) :: segs)) =
  record_bytes r ++ object_file objs ++ object_file (segments_out segs).
Proof.
  unfold segments_out, object_file. simpl.
  rewrite map_app, concat_app. reflexivity.
Qed.

Lemma parse_segment r objs rest :
  segment_ok (r, objs) ->
  exists R,
    record_of r = Some R /\
    parse_record (record_bytes r ++ object_file objs ++ rest) = Ok (R, object_file objs ++ rest) /\
    match R with
    | TextRecord _ len => drop (Z.to_nat len) (object_file objs ++ rest)
    | _ => object_file objs ++ rest
    end = rest.
Proof.
  destruct r as [name sa pl|sa len|a len|ea|c|b]; simpl; try tauto.
  - intros (Hn & Hs & Hp & ->). eexists. split; [reflexivity|].
    destruct name as [|n1 [|n2 [|n3 [|n4 [|n5 [|n6 [|]]]]]]]; try discriminate.
    destruct sa as [|s1 [|s2 [|s3 [|]]]]; try discriminate.
    destruct pl as [|p1 [|p2 [|p3 [|]]]]; try discriminate.
    split; reflexivity.
  - intros (Hs & Hl & Hd). eexists. split; [reflexivity|].
    destruct sa as [|s1 [|s2 [|s3 [|]]]]; try discriminate.
    split; [reflexivity|].
    cbn [nth]. rewrite <- Hd. apply drop_app_length.
  - intros (Ha & ->). eexists. split; [reflexivity|].
    destruct a as [|a1 [|a2 [|a3 [|]]]]; try discriminate.
    split; reflexivity.
  - intros (He & ->). eexists. split; [reflexivity|].
    destruct ea as [|e1 [|e2 [|e3 [|]]]]; try discriminate.
    split; reflexivity.
Qed.

Lemma record_bytes_nonempty r objs :
  segment_ok (r, objs) -> (1 <= length (record_bytes r))%nat.
Proof. destruct r; simpl; try tauto; lia. Qed.

Lemma program_iter_go_segments segs :
  Forall segment_ok segs ->
  forall n, (length (object_file (segments_out segs)) < n)%nat ->
  map (fun y => Some (fst y)) (program_iter_go n (object_file (segments_out segs)))
    = map (fun sg => record_of (fst sg)) segs /\
  Forall2 (fun y sg => take (length (object_file (snd sg))) (snd y) = object_file (snd sg))
    (program_iter_go n (object_file (segments_out segs))) segs.
Proof.
  induction 1 as [|[r objs] segs Hr Hsegs IH]; intros n Hn.
  - destruct n as [|n]; [lia|]. simpl. split; constructor.
  - destruct n as [|n]; [lia|].
    rewrite segments_out_cons in *.
    destruct (parse_segment r objs (object_file (segments_out segs)) Hr) as (R & HR & Hp & Hnext).
    pose proof (record_bytes_nonempty r objs Hr) as Hne.
    rewrite !length_app in Hn.
    cbn [program_iter_go]. rewrite Hp. rewrite Hnext.
    destruct (IH n ltac:(lia)) as [IH1 IH2].
    split.
    + cbn [map fst]. rewrite HR, IH1. reflexivity.
    + constructor; [|exact IH2].
      cbn [snd]. apply take_app_length.
Qed.

(** [X30] The object file that [asm/__main__.py] writes ([bytes(record)]
    of each record in turn) is read back by [program_iter], as [asmt.py]
    lists it: when the file is a sequence of records whose fields have
    their [ctypes] widths, each Text record followed by objects covering
    exactly its length byte, the generator yields exactly those records in
    order, and the buffer yielded with each record starts with the bytes
    of the objects that follow it. *)
Theorem program_iter_object_file segs :
  Forall segment_ok segs ->
  map (fun y => Some (fst y)) (program_iter (object_file (segments_out segs)))
    = map (fun sg => record_of (fst sg)) segs /\
  Forall2 (fun y sg => take (length (object_file (snd sg))) (snd y) = object_file (snd sg))
    (program_iter (object_file (segments_out segs))) segs.
Proof.
  intros H. unfold program_iter. apply program_iter_go_segments; [exact H|lia].
Qed.

Lemma program_iter_object_file_witness :
  Forall segment_ok iter_example /\
  map (fun y => Some (fst y)) (program_iter (object_file (segments_out iter_example)))
    = map (fun sg => record_of (fst sg)) iter_example /\
  Forall2 (fun y sg => take (length (object_file (snd sg))) (snd y) = object_file (snd sg))
    (program_iter (object_file (segments_out iter_example))) iter_example.
Proof.
  assert (H : Forall segment_ok iter_example).
  { unfold iter_example. repeat constructor; simpl; repeat split; try reflexivity; lia. }
  split; [exact H|exact (program_iter_object_file iter_example H)].
Defined.
